(** * Data model of the food nutrient analyzer: app/models.py

    A shallow embedding of the SQLModel classes of [app/models.py] and of the
    three operations the specification defines over them (construction with
    field validation, partial update, projection to a response shape).

    Every class of the source becomes a [Model]: its list of field
    declarations, each with the type annotation, the default and the keyword
    arguments of [Field(...)] as they are written in the source.  Python
    objects are maps from attribute names to values. *)

From Stdlib Require Import ZArith List Ascii String Bool Lia.
From stdpp Require Import base option list strings gmap fin_maps.

Local Open Scope string_scope.
Local Open Scope Z_scope.

(** ** Python values *)

(** A Python [str] is a sequence of Unicode code points. *)
Definition pystr := list N.

(** [str "abc"]: the Python string of an ASCII literal. *)
Fixpoint str (s : string) : pystr :=
  match s with
  | EmptyString => []
  | String c s' => N_of_ascii c :: str s'
  end.

(** [decimal.Decimal] as its [as_tuple()]: sign, digit tuple, exponent; the
    special values have no digits to count. *)
Inductive Decimal :=
  | Finite (negative : bool) (digits : list nat) (exponent : Z)
  | Infinity (negative : bool)
  | NaN.

(** [class AnalysisStatus(str, Enum)] *)
Inductive AnalysisStatus := PENDING | PROCESSING | COMPLETED | FAILED.

(** [class AllergenSeverity(str, Enum)] *)
Inductive AllergenSeverity := LOW | MEDIUM | HIGH | SEVERE.

(** [datetime] values are opaque instants (microseconds since the epoch). *)
Definition datetime := Z.

Inductive value :=
  | VNone
  | VInt (n : Z)
  | VBool (b : bool)
  | VStr (s : pystr)
  | VDecimal (d : Decimal)
  | VDatetime (t : datetime)
  | VStatus (s : AnalysisStatus)
  | VSeverity (s : AllergenSeverity)
  | VDict (d : list (pystr * pystr))
  | VList (l : list pystr).

(** ** Regular expressions, as far as the source uses them *)

(** One item of a bracketed character class. *)
Inductive class_item :=
  | Range (lo hi : ascii)
  | Lit (c : ascii).

Inductive regex :=
  | Caret                               (* ^ *)
  | Dollar                              (* $ *)
  | Chr (c : ascii)                     (* a literal or escaped character *)
  | Class (items : list class_item)     (* [...] *)
  | Plus (r : regex)                    (* r+ *)
  | Cat (r1 r2 : regex).

Definition in_item (c : N) (i : class_item) : bool :=
  match i with
  | Range lo hi => (N_of_ascii lo <=? c)%N && (c <=? N_of_ascii hi)%N
  | Lit a => (c =? N_of_ascii a)%N
  end.

Definition in_class (items : list class_item) (c : N) : bool :=
  existsb (in_item c) items.

(** Matching by continuation: [go r s k] holds when [r] matches a prefix of
    [s] and [k] accepts what is left.  [whole] is the subject string: [^]
    asks that nothing of it has been consumed; [$] consumes nothing and
    holds at the end of the subject and, as in Python's [re], just before a
    newline that ends it.  A round of [+] that consumes nothing is not
    repeated. *)
Fixpoint plus_go (step : pystr -> (pystr -> bool) -> bool)
    (fuel : nat) (s : pystr) (k : pystr -> bool) : bool :=
  match fuel with
  | O => false
  | S fuel' =>
      step s (fun rest =>
        k rest || ((length rest <? length s)%nat && plus_go step fuel' rest k))
  end.

Fixpoint go (r : regex) (whole s : pystr) (k : pystr -> bool) : bool :=
  match r with
  | Caret => (length s =? length whole)%nat && k s
  | Dollar => match s with
              | [] => k s
              | [c] => (c =? 10)%N && k s
              | _ => false
              end
  | Chr a => match s with
             | c :: s' => (c =? N_of_ascii a)%N && k s'
             | [] => false
             end
  | Class items => match s with
                   | c :: s' => in_class items c && k s'
                   | [] => false
                   end
  | Plus r' => plus_go (go r' whole) (S (length s)) s k
  | Cat r1 r2 => go r1 whole s (fun rest => go r2 whole rest k)
  end.

(** Whether the pattern matches at the start of the subject.  The pattern of
    the source begins with [^], so no match starts further in. *)
Definition pattern_match (r : regex) (s : pystr) : bool :=
  go r s s (fun _ => true).

(** [r"^[a-zA-Z0-9_.+-]+@[a-zA-Z0-9-]+\.[a-zA-Z0-9-.]+$"] (models.py:29). *)
Definition local_class : list class_item :=
  [Range "a" "z"; Range "A" "Z"; Range "0" "9";
   Lit "_"; Lit "."; Lit "+"; Lit "-"]%char.
Definition domain_class : list class_item :=
  [Range "a" "z"; Range "A" "Z"; Range "0" "9"; Lit "-"]%char.
Definition tld_class : list class_item :=
  [Range "a" "z"; Range "A" "Z"; Range "0" "9"; Lit "-"; Lit "."]%char.

Definition email_regex : regex :=
  Cat Caret
 (Cat (Plus (Class local_class))
 (Cat (Chr "@"%char)
 (Cat (Plus (Class domain_class))
 (Cat (Chr "."%char)
 (Cat (Plus (Class tld_class))
      Dollar))))).

(** ** Field declarations *)

(** The type annotation of a field, without its [Optional[...]] wrapper. *)
Inductive annot :=
  | TInt | TStr | TBool | TDecimal | TDatetime
  | TAnalysisStatus | TAllergenSeverity
  | TDict                                (* Dict[str, Any] *)
  | TListStr.                            (* List[str] *)

(** The keyword arguments of [Field(...)] other than the default. *)
Inductive kwarg :=
  | primary_key
  | unique
  | foreign_key (target : string)
  | max_length (n : nat)
  | regex_ (r : regex)
  | gt (bound : Z)
  | decimal_places (n : nat)
  | max_digits (n : nat)
  | sa_column_JSON.

Inductive factory := utcnow | list_factory.

Inductive default_spec :=
  | Required                             (* no default given *)
  | Default (v : value)                  (* default=v *)
  | DefaultFactory (f : factory).        (* default_factory=f *)

Record FieldDecl := mkField {
  name : string;
  annotation : annot;
  optional : bool;                       (* Optional[...] *)
  default : default_spec;
  kwargs : list kwarg
}.

Record Model := mkModel {
  cls : string;
  table : bool;
  fields : list FieldDecl;
  relationships : list (string * string) (* attribute, target class *)
}.

(** Shorthands that follow the shape of the source lines. *)
Definition req (n : string) (t : annot) (ks : list kwarg) : FieldDecl :=
  mkField n t false Required ks.
Definition opt (n : string) (t : annot) (ks : list kwarg) : FieldDecl :=
  mkField n t true (Default VNone) ks.
Definition dft (n : string) (t : annot) (v : value) (ks : list kwarg) : FieldDecl :=
  mkField n t false (Default v) ks.
Definition now (n : string) : FieldDecl :=
  mkField n TDatetime false (DefaultFactory utcnow) [].
(** A response field annotated [Optional[...]] with no default. *)
Definition opt_req (n : string) (t : annot) : FieldDecl :=
  mkField n t true Required [].

(** ** Persistent models (models.py:24-163) *)

Definition User : Model := mkModel "User" true
  [ opt "id" TInt [primary_key];
    req "username" TStr [max_length 50; unique];
    req "email" TStr [unique; max_length 255; regex_ email_regex];
    opt "full_name" TStr [max_length 100];
    dft "is_active" TBool (VBool true) [];
    now "created_at";
    now "updated_at" ]
  [ ("food_images", "FoodImage"); ("user_allergens", "UserAllergen") ].

Definition FoodImage : Model := mkModel "FoodImage" true
  [ opt "id" TInt [primary_key];
    req "user_id" TInt [foreign_key "users.id"];
    req "filename" TStr [max_length 255];
    req "file_path" TStr [max_length 500];
    req "file_size" TInt [gt 0];
    req "mime_type" TStr [max_length 100];
    opt "original_filename" TStr [max_length 255];
    opt "description" TStr [max_length 1000];
    now "uploaded_at" ]
  [ ("user", "User"); ("nutritional_analysis", "NutritionalAnalysis") ].

(** [Optional[Decimal] = Field(default=None, decimal_places=2, max_digits=8)] *)
Definition nutrient (n : string) : FieldDecl :=
  opt n TDecimal [decimal_places 2; max_digits 8].

Definition NutritionalAnalysis : Model := mkModel "NutritionalAnalysis" true
  [ opt "id" TInt [primary_key];
    req "food_image_id" TInt [foreign_key "food_images.id"; unique];
    dft "status" TAnalysisStatus (VStatus PENDING) [];
    opt "food_name" TStr [max_length 200];
    opt "food_category" TStr [max_length 100];
    opt "confidence_score" TDecimal [decimal_places 4; max_digits 5];
    nutrient "calories";
    nutrient "protein";
    nutrient "carbohydrates";
    nutrient "total_fat";
    nutrient "saturated_fat";
    nutrient "fiber";
    nutrient "sugar";
    nutrient "sodium";
    nutrient "vitamin_a";
    nutrient "vitamin_c";
    nutrient "vitamin_d";
    nutrient "vitamin_e";
    nutrient "vitamin_k";
    nutrient "vitamin_b1";
    nutrient "vitamin_b2";
    nutrient "vitamin_b3";
    nutrient "vitamin_b6";
    nutrient "vitamin_b12";
    nutrient "folate";
    nutrient "calcium";
    nutrient "iron";
    nutrient "magnesium";
    nutrient "phosphorus";
    nutrient "potassium";
    nutrient "zinc";
    nutrient "estimated_weight";
    opt "serving_size" TStr [max_length 100];
    opt "analysis_model" TStr [max_length 100];
    opt "analysis_version" TStr [max_length 50];
    opt "processing_time" TDecimal [decimal_places 3; max_digits 8];
    opt "error_message" TStr [max_length 1000];
    opt "raw_response" TDict [sa_column_JSON];
    now "created_at";
    now "updated_at" ]
  [ ("food_image", "FoodImage"); ("allergens", "AnalysisAllergen") ].

Definition Allergen : Model := mkModel "Allergen" true
  [ opt "id" TInt [primary_key];
    req "name" TStr [max_length 100; unique];
    opt "category" TStr [max_length 50];
    opt "description" TStr [max_length 500];
    dft "is_common" TBool (VBool false) [];
    now "created_at" ]
  [ ("analysis_allergens", "AnalysisAllergen"); ("user_allergens", "UserAllergen") ].

Definition AnalysisAllergen : Model := mkModel "AnalysisAllergen" true
  [ opt "id" TInt [primary_key];
    req "analysis_id" TInt [foreign_key "nutritional_analyses.id"];
    req "allergen_id" TInt [foreign_key "allergens.id"];
    dft "severity" TAllergenSeverity (VSeverity LOW) [];
    opt "confidence" TDecimal [decimal_places 4; max_digits 5];
    opt "notes" TStr [max_length 500];
    now "detected_at" ]
  [ ("analysis", "NutritionalAnalysis"); ("allergen", "Allergen") ].

Definition UserAllergen : Model := mkModel "UserAllergen" true
  [ opt "id" TInt [primary_key];
    req "user_id" TInt [foreign_key "users.id"];
    req "allergen_id" TInt [foreign_key "allergens.id"];
    dft "severity" TAllergenSeverity (VSeverity MEDIUM) [];
    opt "notes" TStr [max_length 500];
    now "created_at" ]
  [ ("user", "User"); ("allergen", "Allergen") ].

(** ** Non-persistent schemas (models.py:166-261) *)

Definition UserCreate : Model := mkModel "UserCreate" false
  [ req "username" TStr [max_length 50];
    req "email" TStr [max_length 255];
    opt "full_name" TStr [max_length 100] ]
  [].

Definition UserUpdate : Model := mkModel "UserUpdate" false
  [ opt "username" TStr [max_length 50];
    opt "email" TStr [max_length 255];
    opt "full_name" TStr [max_length 100];
    opt "is_active" TBool [] ]
  [].

Definition FoodImageUpload : Model := mkModel "FoodImageUpload" false
  [ req "filename" TStr [max_length 255];
    req "file_path" TStr [max_length 500];
    req "file_size" TInt [gt 0];
    req "mime_type" TStr [max_length 100];
    opt "original_filename" TStr [max_length 255];
    opt "description" TStr [max_length 1000] ]
  [].

(** [Optional[Decimal] = Field(default=None)] *)
Definition plain_decimal (n : string) : FieldDecl := opt n TDecimal [].

Definition NutritionalAnalysisCreate : Model := mkModel "NutritionalAnalysisCreate" false
  [ req "food_image_id" TInt [];
    opt "food_name" TStr [max_length 200];
    opt "food_category" TStr [max_length 100];
    plain_decimal "confidence_score";
    plain_decimal "calories";
    plain_decimal "protein";
    plain_decimal "carbohydrates";
    plain_decimal "total_fat";
    plain_decimal "saturated_fat";
    plain_decimal "fiber";
    plain_decimal "sugar";
    plain_decimal "sodium";
    plain_decimal "vitamin_a";
    plain_decimal "vitamin_c";
    plain_decimal "vitamin_d";
    plain_decimal "vitamin_e";
    plain_decimal "vitamin_k";
    plain_decimal "vitamin_b1";
    plain_decimal "vitamin_b2";
    plain_decimal "vitamin_b3";
    plain_decimal "vitamin_b6";
    plain_decimal "vitamin_b12";
    plain_decimal "folate";
    plain_decimal "calcium";
    plain_decimal "iron";
    plain_decimal "magnesium";
    plain_decimal "phosphorus";
    plain_decimal "potassium";
    plain_decimal "zinc";
    plain_decimal "estimated_weight";
    opt "serving_size" TStr [max_length 100];
    opt "analysis_model" TStr [max_length 100];
    opt "analysis_version" TStr [max_length 50];
    plain_decimal "processing_time" ]
  [].

Definition NutritionalAnalysisUpdate : Model := mkModel "NutritionalAnalysisUpdate" false
  [ opt "status" TAnalysisStatus [];
    opt "error_message" TStr [max_length 1000];
    opt "raw_response" TDict [] ]
  [].

Definition AllergenCreate : Model := mkModel "AllergenCreate" false
  [ req "name" TStr [max_length 100];
    opt "category" TStr [max_length 50];
    opt "description" TStr [max_length 500];
    dft "is_common" TBool (VBool false) [] ]
  [].

Definition AnalysisAllergenCreate : Model := mkModel "AnalysisAllergenCreate" false
  [ req "analysis_id" TInt [];
    req "allergen_id" TInt [];
    dft "severity" TAllergenSeverity (VSeverity LOW) [];
    plain_decimal "confidence";
    opt "notes" TStr [max_length 500] ]
  [].

Definition UserAllergenCreate : Model := mkModel "UserAllergenCreate" false
  [ req "user_id" TInt [];
    req "allergen_id" TInt [];
    dft "severity" TAllergenSeverity (VSeverity MEDIUM) [];
    opt "notes" TStr [max_length 500] ]
  [].

(** ** Response schemas (models.py:264-302) *)

Definition NutritionalAnalysisResponse : Model := mkModel "NutritionalAnalysisResponse" false
  [ req "id" TInt [];
    req "food_image_id" TInt [];
    req "status" TAnalysisStatus [];
    opt_req "food_name" TStr;
    opt_req "food_category" TStr;
    opt_req "confidence_score" TDecimal;
    opt_req "calories" TDecimal;
    opt_req "protein" TDecimal;
    opt_req "carbohydrates" TDecimal;
    opt_req "total_fat" TDecimal;
    opt_req "fiber" TDecimal;
    opt_req "sugar" TDecimal;
    opt_req "sodium" TDecimal;
    opt_req "vitamin_c" TDecimal;
    opt_req "calcium" TDecimal;
    opt_req "iron" TDecimal;
    opt_req "estimated_weight" TDecimal;
    opt_req "serving_size" TStr;
    req "created_at" TStr [];
    mkField "allergens" TListStr false (DefaultFactory list_factory) [] ]
  [].

Definition FoodImageResponse : Model := mkModel "FoodImageResponse" false
  [ req "id" TInt [];
    req "filename" TStr [];
    opt_req "original_filename" TStr;
    req "file_size" TInt [];
    opt_req "description" TStr;
    req "uploaded_at" TStr [];
    opt_req "analysis_status" TAnalysisStatus ]
  [].

(** ** Validation of one field

    The classes derive from SQLModel, which validates a value against the
    keyword arguments of its [Field(...)].  [max_length] bounds the number
    of characters and [gt] is a strict lower bound.  [max_digits] and
    [decimal_places] bound the number of digits in total and after the
    decimal point, counted on [Decimal.normalize().as_tuple()].  The
    [regex] keyword is kept on the field but is not among the constraints
    that validation enforces: a string is checked against its length bound
    only.  A value is of the annotated Python type or rejected; no coercion
    is modelled. *)

Inductive error :=
  | Missing                              (* field required *)
  | NoneNotAllowed
  | WrongType
  | StringTooLong (limit : nat)
  | NotGreaterThan (bound : Z)
  | DecimalNotFinite
  | DecimalMaxDigits (limit : nat)
  | DecimalMaxPlaces (limit : nat)
  | DecimalWholeDigits (limit : nat).

Fixpoint find_max_length (ks : list kwarg) : option nat :=
  match ks with
  | [] => None
  | max_length n :: _ => Some n
  | _ :: ks' => find_max_length ks'
  end.

Fixpoint find_regex (ks : list kwarg) : option regex :=
  match ks with
  | [] => None
  | regex_ r :: _ => Some r
  | _ :: ks' => find_regex ks'
  end.

Fixpoint find_gt (ks : list kwarg) : option Z :=
  match ks with
  | [] => None
  | gt b :: _ => Some b
  | _ :: ks' => find_gt ks'
  end.

Fixpoint find_decimal_places (ks : list kwarg) : option nat :=
  match ks with
  | [] => None
  | decimal_places n :: _ => Some n
  | _ :: ks' => find_decimal_places ks'
  end.

Fixpoint find_max_digits (ks : list kwarg) : option nat :=
  match ks with
  | [] => None
  | max_digits n :: _ => Some n
  | _ :: ks' => find_max_digits ks'
  end.

(** Trailing zeros of the coefficient do not count: [strip] drops them from
    the reversed digit tuple and raises the exponent by one for each. *)
Fixpoint strip (rev_digits : list nat) (exponent : Z) : list nat * Z :=
  match rev_digits with
  | O :: ds => strip ds (exponent + 1)
  | _ => (rev_digits, exponent)
  end.

(** Stripping the trailing zeros of a digit tuple; zero becomes [0e0]. *)
Definition reduce (digits : list nat) (exponent : Z) : list nat * Z :=
  match strip (rev digits) exponent with
  | ([], _) => ([O], 0)
  | (r, e) => (rev r, e)
  end.

(** The default arithmetic context of [decimal]: 28 digits, exponents
    between [Emin] and [Emax], rounding half to even. *)
Definition prec : Z := 28.
Definition Emax : Z := 999999.
Definition Emin : Z := -999999.
Definition Etiny : Z := Emin - prec + 1.
Definition Etop : Z := Emax - prec + 1.

Definition all_zero (digits : list nat) : bool := forallb (Nat.eqb 0) digits.

(** Adding one to a number given by its digits, least significant first. *)
Fixpoint incr (rev_digits : list nat) : list nat :=
  match rev_digits with
  | [] => [1%nat]
  | d :: ds => if Nat.eqb d 9 then O :: incr ds else S d :: ds
  end.

(** Rounding half to even: up when the dropped digits are more than half a
    unit of the last kept digit, or exactly half and that digit is odd. *)
Definition rounds_up (kept dropped : list nat) : bool :=
  let exact_half := match dropped with
                    | d :: t => Nat.eqb d 5 && all_zero t
                    | [] => false
                    end in
  let last_even := match kept with
                   | [] => true
                   | _ => Nat.even (List.last kept O)
                   end in
  if exact_half && last_even then false
  else match dropped with
       | d :: _ => (5 <=? d)%nat
       | [] => false
       end.

(** The first [keep] digits of [digits], rounded. *)
Definition round_half_even (digits : list nat) (keep : nat) : list nat :=
  let kept := firstn keep digits in
  let coeff := match kept with [] => [O] | _ => kept end in
  if rounds_up kept (skipn keep digits) then rev (incr (rev coeff)) else coeff.

(** Fitting a decimal to the context, the first step of
    [Decimal.normalize()]: a coefficient of more than 28 digits, or one
    that reaches below [Etiny], is rounded; [None] stands for the
    [Overflow] that a value above [Emax] raises. *)
Definition fix_context (digits : list nat) (exponent : Z)
  : option (list nat * Z) :=
  if all_zero digits then Some (digits, exponent) else
  let exp_min0 := Z.of_nat (length digits) + exponent - prec in
  if Etop <? exp_min0 then None else
  let exp_min := Z.max exp_min0 Etiny in
  if exponent <? exp_min then
    let nd := Z.of_nat (length digits) + exponent - exp_min in
    let coeff := if nd <? 0 then round_half_even [1%nat] 0
                 else round_half_even digits (Z.to_nat nd) in
    let '(coeff, exp_min) :=
      if prec <? Z.of_nat (length coeff)
      then (removelast coeff, exp_min + 1) else (coeff, exp_min) in
    if Etop <? exp_min then None else Some (coeff, exp_min)
  else Some (digits, exponent).

(** The digit tuple and exponent that the validation counts:
    [Decimal.normalize()] in the default context, which fits the value to
    the context and strips the trailing zeros of the result (a value that
    fits has its exponent at most [Emax], so the stripping never stops
    short); when [normalize] raises, the value as given. *)
Definition normalize (digits : list nat) (exponent : Z) : list nat * Z :=
  match fix_context digits exponent with
  | Some (ds, e) => reduce ds e
  | None => (digits, exponent)
  end.

(** Number of digits in total and after the decimal point. *)
Definition digit_counts (digits : list nat) (exponent : Z) : Z * Z :=
  let '(digits, exponent) := normalize digits exponent in
  let n := Z.of_nat (length digits) in
  if 0 <=? exponent then (n + exponent, 0)
  else if n <? Z.abs exponent then (Z.abs exponent, Z.abs exponent)
  else (n, Z.abs exponent).

Definition check_str (ks : list kwarg) (s : pystr) : option error :=
  match find_max_length ks with
  | Some n => if (n <? length s)%nat then Some (StringTooLong n) else None
  | None => None
  end.

Definition check_int (ks : list kwarg) (n : Z) : option error :=
  match find_gt ks with
  | Some b => if b <? n then None else Some (NotGreaterThan b)
  | None => None
  end.

Definition check_decimal (ks : list kwarg) (d : Decimal) : option error :=
  match d with
  | Finite _ digits exponent =>
      let '(total, places) := digit_counts digits exponent in
      match find_max_digits ks, find_decimal_places ks with
      | Some m, Some p =>
          if Z.of_nat m <? total then Some (DecimalMaxDigits m)
          else if Z.of_nat p <? places then Some (DecimalMaxPlaces p)
          else if Z.of_nat (m - p) <? total - places
               then Some (DecimalWholeDigits (m - p))
          else None
      | Some m, None =>
          if Z.of_nat m <? total then Some (DecimalMaxDigits m) else None
      | None, Some p =>
          if Z.of_nat p <? places then Some (DecimalMaxPlaces p) else None
      | None, None => None
      end
  | _ => Some DecimalNotFinite
  end.

Definition check_value (f : FieldDecl) (v : value) : option error :=
  match v, annotation f with
  | VNone, _ => if optional f then None else Some NoneNotAllowed
  | VInt n, TInt => check_int (kwargs f) n
  | VStr s, TStr => check_str (kwargs f) s
  | VDecimal d, TDecimal => check_decimal (kwargs f) d
  | VBool _, TBool => None
  | VDatetime _, TDatetime => None
  | VStatus _, TAnalysisStatus => None
  | VSeverity _, TAllergenSeverity => None
  | VDict _, TDict => None
  | VList _, TListStr => None
  | _, _ => Some WrongType
  end.

(** ** The clock

    [datetime.utcnow] reads the wall clock; each call is one more reading. *)
Record World := mkWorld {
  wall : nat -> datetime;
  reads : nat
}.

Definition run_factory (fa : factory) (w : World) : value * World :=
  match fa with
  | utcnow => (VDatetime (wall w (reads w)), mkWorld (wall w) (S (reads w)))
  | list_factory => (VList [], w)
  end.

(** ** Construct *)

Inductive result :=
  | Ok (record : gmap string value)
  | ValidationError (errors : list (string * error)).

(** The value of one field: the supplied one if it validates, else the
    declared default (a default is not validated). *)
Definition resolve (f : FieldDecl) (input : gmap string value) (w : World)
  : (value + error) * World :=
  match input !! name f with
  | Some v =>
      match check_value f v with
      | None => (inl v, w)
      | Some e => (inr e, w)
      end
  | None =>
      match default f with
      | Required => (inr Missing, w)
      | Default v => (inl v, w)
      | DefaultFactory fa => let '(v, w') := run_factory fa w in (inl v, w')
      end
  end.

Fixpoint build (fs : list FieldDecl) (input : gmap string value) (w : World)
  : gmap string value * list (string * error) * World :=
  match fs with
  | [] => (∅, [], w)
  | f :: fs' =>
      let '(r, w1) := resolve f input w in
      let '(record, errors, w2) := build fs' input w1 in
      match r with
      | inl v => (<[name f := v]> record, errors, w2)
      | inr e => (record, (name f, e) :: errors, w2)
      end
  end.

(** Construct(E, field values): validating construction of an instance of
    the class [E] (what [E.model_validate] does; the plain [__init__] of a
    [table=True] class is not this operation).  Every declared field is
    resolved in declaration order; the result is the record, or a
    ValidationError that names every offending field with the constraint it
    violates.  Keys of the input that the class does not declare are
    ignored. *)
Definition Construct (E : Model) (input : gmap string value) (w : World)
  : result * World :=
  let '(record, errors, w') := build (fields E) input w in
  (match errors with [] => Ok record | _ => ValidationError errors end, w').

Definition dec (neg : bool) (digits : list nat) (e : Z) : value :=
  VDecimal (Finite neg digits e).

Definition epoch : World := mkWorld (fun n => Z.of_nat n) 0.

(** ** What a pattern matches

    [Matches whole r s rest]: [r] matches the prefix of [s] that ends where
    [rest] begins; [whole] is the subject string, which [^] compares the
    position with. *)
Inductive Matches (whole : pystr) : regex -> pystr -> pystr -> Prop :=
  | M_Caret s : length s = length whole -> Matches whole Caret s s
  | M_Dollar : Matches whole Dollar [] []
  | M_Dollar_newline : Matches whole Dollar [10%N] [10%N]
  | M_Chr a s : Matches whole (Chr a) (N_of_ascii a :: s) s
  | M_Class items c s :
      in_class items c = true -> Matches whole (Class items) (c :: s) s
  | M_Plus_one r s rest :
      Matches whole r s rest -> Matches whole (Plus r) s rest
  | M_Plus_more r s mid rest :
      Matches whole r s mid -> Matches whole (Plus r) mid rest ->
      Matches whole (Plus r) s rest
  | M_Cat r1 r2 s mid rest :
      Matches whole r1 s mid -> Matches whole r2 mid rest ->
      Matches whole (Cat r1 r2) s rest.

(** One or more rounds of a relation on (string, remainder). *)
Inductive rounds (M : pystr -> pystr -> Prop) : pystr -> pystr -> Prop :=
  | rounds_one s rest : M s rest -> rounds M s rest
  | rounds_more s mid rest : M s mid -> rounds M mid rest -> rounds M s rest.

(** The email pattern read character by character. *)
Definition is_alnum (c : N) : Prop :=
  (97 <= c <= 122)%N \/ (65 <= c <= 90)%N \/ (48 <= c <= 57)%N.
Definition local_char (c : N) : Prop :=
  is_alnum c \/ c = 95%N \/ c = 46%N \/ c = 43%N \/ c = 45%N.
Definition domain_char (c : N) : Prop :=
  is_alnum c \/ c = 45%N.
Definition tld_char (c : N) : Prop :=
  is_alnum c \/ c = 45%N \/ c = 46%N.

(** [local@domain.rest], each part non-empty and over its alphabet: what
    the pattern matches, up to one newline that may follow. *)
Definition email_shape (s : pystr) : Prop :=
  exists l d t : pystr,
    s = (l ++ 64%N :: d ++ 46%N :: t)%list /\
    l <> [] /\ Forall local_char l /\
    d <> [] /\ Forall domain_char d /\
    t <> [] /\ Forall tld_char t.

(** ** Construct, without the clock

    Whether a field is rejected does not depend on the clock. *)
Definition verdict (f : FieldDecl) (input : gmap string value) : option error :=
  match input !! name f with
  | Some v => check_value f v
  | None => match default f with Required => Some Missing | _ => None end
  end.

(** Every rejected field with its error, in declaration order. *)
Definition errors_of (fs : list FieldDecl) (input : gmap string value)
  : list (string * error) :=
  flat_map (fun f => match verdict f input with
                     | Some e => [(name f, e)]
                     | None => []
                     end) fs.

(** The value of a field that does not come from the clock. *)
Definition given (f : FieldDecl) (input : gmap string value) : option value :=
  match input !! name f with
  | Some v => Some v
  | None =>
      match default f with
      | Default v => Some v
      | DefaultFactory list_factory => Some (VList [])
      | _ => None
      end
  end.

Definition valid_input (E : Model) (input : gmap string value) : Prop :=
  Forall (fun f => verdict f input = None) (fields E).

Definition field_names (E : Model) : list string := map name (fields E).

Definition get_field (E : Model) (n : string) : option FieldDecl :=
  find (fun f => String.eqb (name f) n) (fields E).

(** Whether the field [n] of [E] accepts the value [v]. *)
Definition accepts (E : Model) (n : string) (v : value) : bool :=
  match get_field E n with
  | Some f => match check_value f v with None => true | Some _ => false end
  | None => false
  end.

(** Fields whose default reads the clock. *)
Definition clocked (f : FieldDecl) : bool :=
  match default f with DefaultFactory utcnow => true | _ => false end.


Definition annot_eqb (a b : annot) : bool :=
  match a, b with
  | TInt, TInt | TStr, TStr | TBool, TBool | TDecimal, TDecimal
  | TDatetime, TDatetime | TAnalysisStatus, TAnalysisStatus
  | TAllergenSeverity, TAllergenSeverity | TDict, TDict
  | TListStr, TListStr => true
  | _, _ => false
  end.

Definition option_nat_eqb (a b : option nat) : bool :=
  match a, b with
  | Some x, Some y => Nat.eqb x y
  | None, None => true
  | _, _ => false
  end.


Definition is_none {A} (o : option A) : bool :=
  match o with None => true | Some _ => false end.



(** ** ApplyUpdate *)

(** A field of an update is present unless it is [None]. *)
Definition present (v : value) : bool :=
  match v with VNone => false | _ => true end.

(** Modelled from the spec: ApplyUpdate(record, update) overwrites on the
    record each field that is present in the update, and nothing else.  The
    source declares the update shapes; the code that applies them is not in
    it. *)
Definition ApplyUpdate (record update : gmap string value) : gmap string value :=
  map_fold (fun k v r => if present v then <[k := v]> r else r) record update.

(** ** ProjectToResponse *)

Section Response.
(** [datetime.isoformat], as the comments of the response shapes ask. *)
Variable isoformat : datetime -> pystr.

(** The value a response field shows for a value of the record. *)
Definition shown (f : FieldDecl) (v : value) : value :=
  match annotation f, v with
  | TStr, VDatetime t => VStr (isoformat t)
  | _, _ => v
  end.

Fixpoint project (fs : list FieldDecl) (record joined : gmap string value)
  : gmap string value :=
  match fs with
  | [] => ∅
  | f :: fs' =>
      match record !! name f, joined !! name f with
      | Some v, _ => <[name f := shown f v]> (project fs' record joined)
      | None, Some v => <[name f := v]> (project fs' record joined)
      | None, None => project fs' record joined
      end
  end.

(** Modelled from the spec: ProjectToResponse(record) maps a persistent
    record, plus values taken from joined rows, to the fields its response
    shape declares.  The source declares the response shapes; the code
    that fills them is not in it. *)
Definition ProjectToResponse (R : Model) (record joined : gmap string value)
  : gmap string value :=
  project (fields R) record joined.
End Response.

(** ** Sample inputs *)

Definition bad_user : gmap string value :=
  {[ "username" := VStr (str "bob"); "email" := VStr (str "bob.example.com") ]}.

Definition an_upload : gmap string value :=
  {[ "user_id" := VInt 7;
     "filename" := VStr (str "lunch.jpg");
     "file_path" := VStr (str "/uploads/lunch.jpg");
     "mime_type" := VStr (str "image/jpeg") ]}.

Definition a_user_allergen : gmap string value :=
  {[ "user_id" := VInt 1; "allergen_id" := VInt 2 ]}.

Definition an_analysis_allergen : gmap string value :=
  {[ "analysis_id" := VInt 3; "allergen_id" := VInt 2 ]}.

Definition a_user : gmap string value :=
  {[ "username" := VStr (str "ada"); "email" := VStr (str "ada@example.com") ]}.


Definition one : value := dec false [1; 0; 0; 0; 0]%nat (-4).          (* 1.0000 *)

Definition above_one : value := dec false [1; 0; 0; 0; 1]%nat (-4).    (* 1.0001 *)

Definition nearly_ten : value := dec false [9; 9; 9; 9; 9]%nat (-4).   (* 9.9999 *)

Definition minus_one : value := dec true [1; 0; 0; 0; 0]%nat (-4).     (* -1.0000 *)

Definition analysis_with (score : value) : gmap string value :=
  {[ "food_image_id" := VInt 42; "confidence_score" := score ]}.

(** The statement of C6 as the specification words it. *)
Definition construct_is_deterministic : Prop :=
  forall (E : Model) (input : gmap string value) (w1 w2 : World) r1 r2,
    (Construct E input w1).1 = Ok r1 ->
    (Construct E input w2).1 = Ok r2 ->
    r1 = r2.

(** ** Feeding a validated shape to a persistent model *)

(** The field [p] rejects nothing that the field [c] accepts: same type, at
    least as optional, bounds no tighter, and no pattern or digit bound. *)
Definition no_stricter (p c : FieldDecl) : bool :=
  annot_eqb (annotation p) (annotation c) &&
  implb (optional c) (optional p) &&
  match find_max_length (kwargs p), find_max_length (kwargs c) with
  | None, _ => true
  | Some n, Some m => (m <=? n)%nat
  | Some _, None => false
  end &&
  match find_gt (kwargs p), find_gt (kwargs c) with
  | None, _ => true
  | Some a, Some b => a <=? b
  | Some _, None => false
  end &&
  is_none (find_regex (kwargs p)) &&
  is_none (find_decimal_places (kwargs p)) &&
  is_none (find_max_digits (kwargs p)).

(** A declared default passes the validation of its own field. *)
Definition default_ok (c : FieldDecl) : bool :=
  match default c with
  | Required => true
  | Default v => is_none (check_value c v)
  | DefaultFactory list_factory => is_none (check_value c (VList []))
  | DefaultFactory utcnow => is_none (check_value c (VDatetime 0))
  end.

(** Every field of [C] is filled without the clock, has a sound default, and
    is matched in [P], if at all, by a field that is no stricter. *)
Definition feeds (C P : Model) : bool :=
  forallb (fun c => negb (clocked c) && default_ok c &&
                    match get_field P (name c) with
                    | Some p => no_stricter p c
                    | None => true
                    end) (fields C).

(** The Create shapes whose persistent model declares no tighter bound. *)
Definition feeding_shapes : list (Model * Model) :=
  [ (AllergenCreate, Allergen);
    (UserAllergenCreate, UserAllergen);
    (FoodImageUpload, FoodImage) ].

Definition an_upload_form : gmap string value :=
  {[ "filename" := VStr (str "lunch.jpg");
     "file_path" := VStr (str "/uploads/lunch.jpg");
     "file_size" := VInt 2048;
     "mime_type" := VStr (str "image/jpeg") ]}.

Definition an_owner : gmap string value := {[ "user_id" := VInt 7 ]}.

(** ** Update shapes and the classes as a whole *)

(** Each Update shape with its persistent model. *)
Definition update_shapes : list (Model * Model) :=
  [ (UserUpdate, User);
    (NutritionalAnalysisUpdate, NutritionalAnalysis) ].

Definition default_is_none (c : FieldDecl) : bool :=
  match default c with Default VNone => true | _ => false end.

(** Every field of [U] may be left out, and is a field of [P] that [U]
    bounds no tighter, with the same length bound. *)
Definition partial_of (U P : Model) : bool :=
  forallb (fun c => default_is_none c && optional c &&
                    match get_field P (name c) with
                    | Some p =>
                        no_stricter c p &&
                        option_nat_eqb (find_max_length (kwargs c))
                                       (find_max_length (kwargs p))
                    | None => false
                    end) (fields U).

(** Every class of the source. *)
Definition all_models : list Model :=
  [ User; FoodImage; NutritionalAnalysis; Allergen; AnalysisAllergen;
    UserAllergen; UserCreate; UserUpdate; FoodImageUpload;
    NutritionalAnalysisCreate; NutritionalAnalysisUpdate; AllergenCreate;
    AnalysisAllergenCreate; UserAllergenCreate;
    NutritionalAnalysisResponse; FoodImageResponse ].

(** ** Tables, foreign keys and relationships *)

(** [__tablename__] of each persistent class (models.py:25, 41, 59, 121,
    136, 152). *)
Definition tables : list (string * Model) :=
  [ ("users", User);
    ("food_images", FoodImage);
    ("nutritional_analyses", NutritionalAnalysis);
    ("allergens", Allergen);
    ("analysis_allergens", AnalysisAllergen);
    ("user_allergens", UserAllergen) ].

(** The [foreign_key="table.column"] arguments of a class, each with the
    field that carries it. *)
Definition foreign_keys (E : Model) : list (FieldDecl * string) :=
  flat_map (fun f =>
    flat_map (fun k => match k with
                       | foreign_key t => [(f, t)]
                       | _ => []
                       end) (kwargs f)) (fields E).

(** The annotation of a relationship attribute: [X], [Optional["X"]] or
    [List["X"]]. *)
Inductive multiplicity := One | OptionalOne | Many.

Record RelationshipDecl := mkRel {
  owner : string;
  attribute : string;
  kind : multiplicity;
  target : string;
  back_populates : string
}.

(** The [Relationship(back_populates=...)] attributes (models.py:36-37,
    54-55, 116-117, 131-132, 147-148, 162-163). *)
Definition relationship_decls : list RelationshipDecl :=
  [ mkRel "User" "food_images" Many "FoodImage" "user";
    mkRel "User" "user_allergens" Many "UserAllergen" "user";
    mkRel "FoodImage" "user" One "User" "food_images";
    mkRel "FoodImage" "nutritional_analysis" OptionalOne
          "NutritionalAnalysis" "food_image";
    mkRel "NutritionalAnalysis" "food_image" One "FoodImage" "nutritional_analysis";
    mkRel "NutritionalAnalysis" "allergens" Many "AnalysisAllergen" "analysis";
    mkRel "Allergen" "analysis_allergens" Many "AnalysisAllergen" "allergen";
    mkRel "Allergen" "user_allergens" Many "UserAllergen" "allergen";
    mkRel "AnalysisAllergen" "analysis" One "NutritionalAnalysis" "allergens";
    mkRel "AnalysisAllergen" "allergen" One "Allergen" "analysis_allergens";
    mkRel "UserAllergen" "user" One "User" "user_allergens";
    mkRel "UserAllergen" "allergen" One "Allergen" "user_allergens" ].

(** The relationship attributes of the class named [c], as [Model] lists
    them. *)
Definition relationships_of (c : string) : list (string * string) :=
  map (fun r => (attribute r, target r))
      (List.filter (fun r => String.eqb (owner r) c) relationship_decls).

(** The class [E] has a column that is a foreign key to the primary key
    [id] of the table of the class named [c]; [u] tells whether the column
    is declared unique. *)
Definition references (E : Model) (c : string) (u : bool) : Prop :=
  Exists (fun f =>
    Exists (fun t => cls t.2 = c /\
                     foreign_key (t.1 +:+ ".id") ∈ kwargs f /\
                     (unique ∈ kwargs f <-> u = true))
           tables) (fields E).

(** ** The enumerations as strings *)

(** The value of each member of [AnalysisStatus] (models.py:10-13). *)
Definition status_value (s : AnalysisStatus) : string :=
  match s with
  | PENDING => "pending"
  | PROCESSING => "processing"
  | COMPLETED => "completed"
  | FAILED => "failed"
  end.

(** The value of each member of [AllergenSeverity] (models.py:17-20). *)
Definition severity_value (s : AllergenSeverity) : string :=
  match s with
  | LOW => "low"
  | MEDIUM => "medium"
  | HIGH => "high"
  | SEVERE => "severe"
  end.

(** [AnalysisStatus(v)]: the member whose value is [v], in definition
    order; [None] stands for the [ValueError] of an unknown value. *)
Definition status_of_value (v : string) : option AnalysisStatus :=
  find (fun s => String.eqb (status_value s) v)
       [PENDING; PROCESSING; COMPLETED; FAILED].

(** [AllergenSeverity(v)] *)
Definition severity_of_value (v : string) : option AllergenSeverity :=
  find (fun s => String.eqb (severity_value s) v)
       [LOW; MEDIUM; HIGH; SEVERE].

(** [a < b] on members of [AllergenSeverity]: the class derives from [str],
    so members compare as their values do. *)
Definition severity_lt (a b : AllergenSeverity) : bool :=
  String.ltb (severity_value a) (severity_value b).

(** Position of a severity in the alphabetical order of the values. *)
Definition alphabetical_rank (s : AllergenSeverity) : Z :=
  match s with HIGH => 0 | LOW => 1 | MEDIUM => 2 | SEVERE => 3 end.

(** ** Readings of the clock *)

(** Whether constructing from [input] reads the clock for the field [f]. *)
Definition reads_clock (f : FieldDecl) (input : gmap string value) : bool :=
  clocked f && is_none (input !! name f).

(** How many times constructing from [input] reads the clock. *)
Definition clock_reads (fs : list FieldDecl) (input : gmap string value) : nat :=
  length (List.filter (fun f => reads_clock f input) fs).

Definition later (w : World) (n : nat) : World :=
  mkWorld (wall w) (reads w + n).

(** ** Required fields *)

Definition is_required (f : FieldDecl) : bool :=
  match default f with Required => true | _ => false end.

(** The fields of a class that have no default. *)
Definition required_names (E : Model) : list string :=
  map name (List.filter is_required (fields E)).

(** ** Decimals as numbers *)

(** The number a digit list stands for, least significant digit first. *)
Fixpoint lvalue (rev_digits : list nat) : Z :=
  match rev_digits with
  | [] => 0
  | d :: ds => Z.of_nat d + 10 * lvalue ds
  end.

(** The coefficient of a decimal: its digit tuple read as a number. *)
Definition coefficient (digits : list nat) : Z := lvalue (rev digits).

(** A digit tuple as [Decimal] keeps it: decimal digits, at least one, and
    no leading zero unless the tuple is the single digit 0. *)
Definition digit_tuple (digits : list nat) : Prop :=
  Forall (fun d => (d < 10)%nat) digits /\
  (digits = [O] \/ exists d ds, digits = d :: ds /\ d <> O).

(** A decimal that the default context holds exactly: at most 28 digits,
    and an exponent within the range of the context. *)
Definition in_context (digits : list nat) (e : Z) : Prop :=
  Z.of_nat (length digits) <= prec /\
  Etiny <= e /\ e + Z.of_nat (length digits) <= Emax + 1.

(** [c * 10^e] is a whole multiple of [10^-p]. *)
Definition multiple_of_unit (c e : Z) (p : nat) : Prop :=
  (10 ^ Z.max 0 (- (e + Z.of_nat p)) | c).

(** [c * 10^e < 10^k], for [c >= 0]. *)
Definition below_power (c e : Z) (k : nat) : Prop :=
  c * 10 ^ Z.max 0 e < 10 ^ (Z.of_nat k + Z.max 0 (- e)).

(** The digit bounds that the persistent models declare for a decimal
    field, as ([max_digits], [decimal_places]) (models.py:68-108, 142). *)
Definition declared_bounds (n : string) : nat * nat :=
  if String.eqb n "confidence_score" || String.eqb n "confidence" then (5, 4)%nat
  else if String.eqb n "processing_time" then (8, 3)%nat
  else (8, 2)%nat.

(** * Properties *)

(** ** The matcher against the meaning of patterns *)

Lemma Matches_suffix whole r s rest :
  Matches whole r s rest -> exists pre, s = (pre ++ rest)%list.
Proof.
  induction 1.
  - by exists [].
  - by exists [].
  - by exists [].
  - by exists [N_of_ascii a].
  - by exists [c].
  - done.
  - destruct IHMatches1 as [p1 ->], IHMatches2 as [p2 ->].
    exists (p1 ++ p2)%list. by rewrite <- app_assoc.
  - destruct IHMatches1 as [p1 ->], IHMatches2 as [p2 ->].
    exists (p1 ++ p2)%list. by rewrite <- app_assoc.
Qed.

Lemma Matches_Plus_rounds whole r s rest :
  Matches whole (Plus r) s rest <-> rounds (Matches whole r) s rest.
Proof.
  split.
  - intros H. remember (Plus r) as p eqn:E.
    induction H; inversion E; subst.
    + by apply rounds_one.
    + eapply rounds_more; [eassumption | by apply IHMatches2].
  - induction 1.
    + by apply M_Plus_one.
    + by eapply M_Plus_more.
Qed.

Section PlusGo.
Variable step : pystr -> (pystr -> bool) -> bool.
Variable M : pystr -> pystr -> Prop.
Hypothesis step_spec : forall s k,
  step s k = true <-> exists rest, M s rest /\ k rest = true.
Hypothesis M_suffix : forall s rest, M s rest -> exists pre, s = (pre ++ rest)%list.

Lemma plus_go_sound fuel : forall s k,
  plus_go step fuel s k = true -> exists rest, rounds M s rest /\ k rest = true.
Proof.
  induction fuel as [|fuel IH]; intros s k H; [done|].
  simpl in H. apply step_spec in H as (mid & Hm & Hk).
  apply orb_true_iff in Hk as [Hk | Hk].
  - exists mid. split; [by apply rounds_one | done].
  - apply andb_true_iff in Hk as [_ Hk].
    destruct (IH _ _ Hk) as (rest & Hr & Hk').
    exists rest. split; [by eapply rounds_more | done].
Qed.

Lemma plus_go_complete s rest :
  rounds M s rest -> forall fuel k,
  (length s < fuel)%nat -> k rest = true -> plus_go step fuel s k = true.
Proof.
  induction 1 as [s rest Hm | s mid rest Hm Hr IH]; intros fuel k Hf Hk.
  - destruct fuel as [|fuel]; [lia|]. simpl.
    apply step_spec. exists rest. split; [done|]. by rewrite Hk.
  - destruct (M_suffix _ _ Hm) as [pre ->].
    destruct pre as [|c pre].
    + simpl in *. by apply IH.
    + destruct fuel as [|fuel]; [lia|]. simpl.
      apply step_spec. exists mid. split; [done|].
      apply orb_true_iff. right. apply andb_true_iff. split.
      * apply Nat.ltb_lt. simpl. rewrite length_app. lia.
      * apply IH; [|done]. simpl in Hf. rewrite length_app in Hf. lia.
Qed.
End PlusGo.

Lemma go_spec whole r : forall s k,
  go r whole s k = true <-> exists rest, Matches whole r s rest /\ k rest = true.
Proof.
  induction r as [| | a | items | r IH | r1 IH1 r2 IH2]; intros s k; cbn [go].
  - rewrite andb_true_iff, Nat.eqb_eq. split.
    + intros [Hl Hk]. exists s. split; [by constructor | done].
    + intros (rest & Hm & Hk). inversion Hm; subst. done.
  - destruct s as [|c [|c' s]].
    + split.
      * intros Hk. exists []. split; [constructor | done].
      * intros (rest & Hm & Hk). by inversion Hm; subst.
    + rewrite andb_true_iff, N.eqb_eq. split.
      * intros [-> Hk]. exists [10%N]. split; [constructor | done].
      * intros (rest & Hm & Hk). by inversion Hm; subst.
    + split; [done|]. intros (rest & Hm & _). inversion Hm.
  - destruct s as [|c s].
    + split; [done|]. intros (rest & Hm & _). inversion Hm.
    + rewrite andb_true_iff, N.eqb_eq. split.
      * intros [-> Hk]. exists s. split; [constructor | done].
      * intros (rest & Hm & Hk). by inversion Hm; subst.
  - destruct s as [|c s].
    + split; [done|]. intros (rest & Hm & _). inversion Hm.
    + rewrite andb_true_iff. split.
      * intros [Hc Hk]. exists s. split; [by constructor | done].
      * intros (rest & Hm & Hk). by inversion Hm; subst.
  - split.
    + intros H. apply (plus_go_sound _ _ IH) in H as (rest & Hr & Hk).
      exists rest. split; [by apply Matches_Plus_rounds | done].
    + intros (rest & Hm & Hk). apply Matches_Plus_rounds in Hm.
      eapply (plus_go_complete _ _ IH); [apply Matches_suffix | done | lia | done].
  - rewrite IH1. split.
    + intros (mid & Hm1 & H2). apply IH2 in H2 as (rest & Hm2 & Hk).
      exists rest. split; [by econstructor | done].
    + intros (rest & Hm & Hk). inversion Hm; subst.
      exists mid. split; [done|]. apply IH2. by exists rest.
Qed.

(** [pattern_match] decides whether the pattern matches at the start of [s]. *)
Lemma pattern_match_spec r s :
  pattern_match r s = true <-> exists rest, Matches s r s rest.
Proof.
  unfold pattern_match. rewrite go_spec. split.
  - intros (rest & H & _). by exists rest.
  - intros (rest & H). by exists rest.
Qed.

(** ** The email pattern *)

Example email_ok : pattern_match email_regex (str "a.b+c@ex-ample.co.uk") = true.
Proof. reflexivity. Qed.
Example email_no_at : pattern_match email_regex (str "not-an-email") = false.
Proof. reflexivity. Qed.
Example email_no_dot : pattern_match email_regex (str "a@b") = false.
Proof. reflexivity. Qed.
Example email_space : pattern_match email_regex (str "a b@c.d") = false.
Proof. reflexivity. Qed.
Example email_newline :
  pattern_match email_regex (str "a@b.co" ++ [10%N])%list = true.
Proof. reflexivity. Qed.
Example email_two_newlines :
  pattern_match email_regex (str "a@b.co" ++ [10%N; 10%N])%list = false.
Proof. reflexivity. Qed.

Ltac invert H := inversion H; subst; clear H.

(** Take a match of a concatenation, an anchor or a character apart. *)
Ltac split_match :=
  repeat match goal with
  | H : Matches _ (Cat _ _) _ _ |- _ => invert H
  | H : Matches _ Caret _ _ |- _ => invert H
  | H : Matches _ Dollar _ _ |- _ => invert H
  | H : Matches _ (Chr _) _ _ |- _ => invert H
  end.

Ltac class_tac :=
  unfold in_class, local_char, domain_char, tld_char, is_alnum; cbn;
  rewrite ?orb_true_iff, ?andb_true_iff, ?N.leb_le, ?N.eqb_eq, ?orb_false_r;
  split; intros; intuition (try discriminate; lia).

Lemma local_class_spec c : in_class local_class c = true <-> local_char c.
Proof. class_tac. Qed.

Lemma domain_class_spec c : in_class domain_class c = true <-> domain_char c.
Proof. class_tac. Qed.

Lemma tld_class_spec c : in_class tld_class c = true <-> tld_char c.
Proof. class_tac. Qed.

Lemma Forall_class (items : list class_item) (P : N -> Prop) (l : pystr) :
  (forall c, in_class items c = true <-> P c) ->
  Forall (fun c => in_class items c = true) l <-> Forall P l.
Proof.
  intros H. split; intros F; eapply Forall_impl; eauto; intros c; apply H.
Qed.

(** [[...]+] takes a non-empty run of characters of the class. *)
Lemma Plus_Class_spec whole items s rest :
  Matches whole (Plus (Class items)) s rest <->
  exists pre, pre <> [] /\ Forall (fun c => in_class items c = true) pre /\
              s = (pre ++ rest)%list.
Proof.
  rewrite Matches_Plus_rounds. split.
  - induction 1 as [s rest Hm | s mid rest Hm Hr IH].
    + invert Hm. exists [c]. by repeat constructor.
    + invert Hm. destruct IH as (pre & _ & Hf & ->).
      exists (c :: pre). split; [done|]. split; [by constructor | done].
  - intros (pre & Hne & Hf & ->).
    induction pre as [|c pre IH]; [done|].
    invert Hf. destruct pre as [|c' pre].
    + apply rounds_one. by constructor.
    + eapply rounds_more; [by constructor|]. by apply IH.
Qed.

Lemma email_shape_intro (l d t : pystr) :
  l <> [] -> Forall (fun c => in_class local_class c = true) l ->
  d <> [] -> Forall (fun c => in_class domain_class c = true) d ->
  t <> [] -> Forall (fun c => in_class tld_class c = true) t ->
  email_shape (l ++ 64%N :: d ++ 46%N :: t)%list.
Proof.
  intros Hl Fl Hd Fd Ht Ft. exists l, d, t.
  repeat split; try done.
  - by apply (Forall_class _ _ _ local_class_spec).
  - by apply (Forall_class _ _ _ domain_class_spec).
  - by apply (Forall_class _ _ _ tld_class_spec).
Qed.

Lemma email_shape_matches (s tail : pystr) :
  email_shape s -> Matches (s ++ tail)%list Dollar tail tail ->
  exists rest, Matches (s ++ tail)%list email_regex (s ++ tail)%list rest.
Proof.
  intros (l & d & t & -> & Hl & Fl & Hd & Fd & Ht & Ft) HD.
  assert (((l ++ 64%N :: d ++ 46%N :: t) ++ tail)%list =
          (l ++ 64%N :: d ++ 46%N :: t ++ tail)%list) as E.
  { rewrite <- app_assoc. simpl. by rewrite <- app_assoc. }
  rewrite E in *. exists tail. unfold email_regex.
  eapply M_Cat; [by constructor|].
  eapply M_Cat.
  { apply Plus_Class_spec. exists l. split; [done|]. split; [|reflexivity].
    by apply (Forall_class _ _ _ local_class_spec). }
  eapply M_Cat; [apply (M_Chr _ "@"%char)|].
  eapply M_Cat.
  { apply Plus_Class_spec. exists d. split; [done|]. split; [|reflexivity].
    by apply (Forall_class _ _ _ domain_class_spec). }
  eapply M_Cat; [apply (M_Chr _ "."%char)|].
  eapply M_Cat; [|exact HD].
  apply Plus_Class_spec. exists t. split; [done|]. split; [|done].
  by apply (Forall_class _ _ _ tld_class_spec).
Qed.

(** The pattern of [User.email] matches exactly the strings of the shape
    [local@domain.rest], alone or followed by one newline. *)
Lemma email_regex_spec s :
  pattern_match email_regex s = true <->
  email_shape s \/ exists s', s = (s' ++ [10%N])%list /\ email_shape s'.
Proof.
  rewrite pattern_match_spec. unfold email_regex. split.
  - intros (rest & H).
    split_match;
      repeat match goal with
      | H : Matches _ (Plus (Class _)) _ _ |- _ => apply Plus_Class_spec in H
      end;
      match goal with
      | H1 : exists _, _ /\ Forall (fun c => in_class local_class c = true) _ /\ _,
        H2 : exists _, _ /\ Forall (fun c => in_class domain_class c = true) _ /\ _,
        H3 : exists _, _ /\ Forall (fun c => in_class tld_class c = true) _ /\ _ |- _ =>
          destruct H1 as (l & Hl & Fl & E1);
          destruct H2 as (d & Hd & Fd & E2);
          destruct H3 as (t & Ht & Ft & E3)
      end; subst.
    + left. rewrite app_nil_r. by apply email_shape_intro.
    + right. exists (l ++ 64%N :: d ++ 46%N :: t)%list. split.
      * rewrite <- app_assoc. simpl. rewrite <- app_assoc. reflexivity.
      * by apply email_shape_intro.
  - intros [Hs | (s' & -> & Hs)].
    + rewrite <- (app_nil_r s). apply email_shape_matches; [done | constructor].
    + apply email_shape_matches; [done | constructor].
Qed.

(** ** Digit counts *)

Example digits_of_one : digit_counts [1; 0; 0; 0; 0]%nat (-4) = (1, 0).
Proof. reflexivity. Qed.
Example digits_above_one : digit_counts [1; 0; 0; 0; 1]%nat (-4) = (5, 4).
Proof. reflexivity. Qed.
Example digits_of_zero : digit_counts [0]%nat (-2) = (1, 0).
Proof. reflexivity. Qed.
Example digits_of_hundred : digit_counts [1; 0; 0]%nat 0 = (3, 0).
Proof. reflexivity. Qed.
Example digits_of_thousandth : digit_counts [1]%nat (-3) = (3, 3).
Proof. reflexivity. Qed.
(** 1.00000000000000000000000000001, of 30 digits, counts as 1. *)
Example digits_past_precision :
  digit_counts (1%nat :: repeat O 28 ++ [1%nat])%list (-29) = (1, 0).
Proof. vm_compute. reflexivity. Qed.
Example digits_round_to_even :
  normalize (repeat 1%nat 27 ++ [2; 5]%nat)%list 0 =
  ((repeat 1%nat 27 ++ [2%nat])%list, 1).
Proof. vm_compute. reflexivity. Qed.
Example digits_underflow : normalize [1]%nat (-2000000) = ([O], 0).
Proof. vm_compute. reflexivity. Qed.
Example digits_overflow : normalize [1; 0]%nat 999999 = ([1; 0]%nat, 999999).
Proof. vm_compute. reflexivity. Qed.

(** ** Construct: errors and record *)

Lemma resolve_inl f input w v w' :
  resolve f input w = (inl v, w') -> verdict f input = None.
Proof.
  unfold resolve, verdict. destruct (input !! name f) as [x|].
  - destruct (check_value f x); [discriminate | done].
  - destruct (default f) as [| d | fa]; [discriminate | done | done].
Qed.

Lemma resolve_inr f input w e w' :
  resolve f input w = (inr e, w') -> verdict f input = Some e.
Proof.
  unfold resolve, verdict. destruct (input !! name f) as [x|].
  - destruct (check_value f x); [congruence | discriminate].
  - destruct (default f) as [| d | fa]; [congruence | discriminate |].
    destruct (run_factory fa w). discriminate.
Qed.

Lemma build_errors fs : forall input w,
  (build fs input w).1.2 = errors_of fs input.
Proof.
  induction fs as [|f fs IH]; intros input w; [done|].
  simpl. destruct (resolve f input w) as [[v|e] w1] eqn:R;
    specialize (IH input w1);
    destruct (build fs input w1) as [[record errors] w2]; simpl in *.
  - by rewrite (resolve_inl _ _ _ _ _ R).
  - rewrite (resolve_inr _ _ _ _ _ R). simpl. by rewrite IH.
Qed.

Lemma errors_of_nil fs input :
  errors_of fs input = [] <-> Forall (fun f => verdict f input = None) fs.
Proof.
  induction fs as [|f fs IH]; simpl.
  - split; [constructor | done].
  - rewrite Forall_cons. destruct (verdict f input) as [e|]; simpl.
    + split; [done | by intros [? _]].
    + rewrite IH. tauto.
Qed.

Lemma elem_of_errors_of fs input n e :
  (n, e) ∈ errors_of fs input <->
  exists f, f ∈ fs /\ name f = n /\ verdict f input = Some e.
Proof.
  unfold errors_of. rewrite list_elem_of_In, in_flat_map. split.
  - intros (f & Hin & H). exists f. rewrite list_elem_of_In.
    destruct (verdict f input) as [e'|]; [|done].
    destruct H as [H|[]]. by inversion H.
  - intros (f & Hin & <- & Hv). exists f. rewrite <- list_elem_of_In.
    split; [done|]. rewrite Hv. by left.
Qed.

(** Construct succeeds exactly on the valid inputs, and otherwise reports
    every rejected field. *)
Lemma Construct_result E input w :
  (Construct E input w).1 =
  match errors_of (fields E) input with
  | [] => Ok (build (fields E) input w).1.1
  | es => ValidationError es
  end.
Proof.
  unfold Construct. pose proof (build_errors (fields E) input w) as H.
  destruct (build (fields E) input w) as [[record errors] w']. simpl in *.
  rewrite H. by destruct (errors_of (fields E) input).
Qed.

Lemma Construct_valid E input w :
  valid_input E input ->
  (Construct E input w).1 = Ok (build (fields E) input w).1.1.
Proof.
  intros V. rewrite Construct_result.
  by rewrite (proj2 (errors_of_nil _ _) V).
Qed.

Lemma Construct_Ok_valid E input w r :
  (Construct E input w).1 = Ok r -> valid_input E input.
Proof.
  rewrite Construct_result. intros H. apply errors_of_nil.
  by destruct (errors_of (fields E) input).
Qed.

Lemma Construct_rejects E input w f e :
  f ∈ fields E -> verdict f input = Some e ->
  (Construct E input w).1 = ValidationError (errors_of (fields E) input) /\
  (name f, e) ∈ errors_of (fields E) input.
Proof.
  intros Hin Hv.
  assert ((name f, e) ∈ errors_of (fields E) input) as He.
  { apply elem_of_errors_of. by exists f. }
  split; [|done]. rewrite Construct_result.
  destruct (errors_of (fields E) input); [|done].
  by apply elem_of_nil in He.
Qed.

Lemma resolve_given f input w :
  verdict f input = None ->
  (clocked f = false \/ is_Some (input !! name f)) ->
  exists v, given f input = Some v /\ resolve f input w = (inl v, w).
Proof.
  unfold verdict, given, resolve, clocked. intros Hv Hc.
  destruct (input !! name f) as [x|].
  - rewrite Hv. by exists x.
  - destruct (default f) as [| d | [|]]; try done.
    + by exists d.
    + destruct Hc as [? | [? ?]]; done.
    + by exists (VList []).
Qed.

(** A field that does not read the clock holds the supplied value, or else
    its declared default. *)
Lemma build_lookup fs : forall input w f,
  NoDup (map name fs) -> f ∈ fs ->
  verdict f input = None ->
  (clocked f = false \/ is_Some (input !! name f)) ->
  (build fs input w).1.1 !! name f = given f input.
Proof.
  induction fs as [|g fs IH]; intros input w f ND Hin Hv Hc.
  - by apply elem_of_nil in Hin.
  - simpl in ND. apply NoDup_cons in ND as [Hg ND]. simpl.
    apply elem_of_cons in Hin as [-> | Hin].
    + destruct (resolve_given g input w Hv Hc) as (v & Hgiven & ->).
      destruct (build fs input w) as [[record errors] w2]. simpl.
      by rewrite lookup_insert_eq.
    + assert (name g <> name f) as Hne.
      { intros E. apply Hg. rewrite E. apply list_elem_of_fmap. by exists f. }
      destruct (resolve g input w) as [[v|e] w1];
        specialize (IH input w1 f ND Hin Hv Hc);
        destruct (build fs input w1) as [[record errors] w2]; simpl in *.
      * by rewrite lookup_insert_ne.
      * done.
Qed.

(** The record holds the declared fields and nothing else. *)
Lemma build_dom fs : forall input w n,
  is_Some ((build fs input w).1.1 !! n) -> n ∈ map name fs.
Proof.
  induction fs as [|g fs IH]; intros input w n; simpl.
  - rewrite lookup_empty. by intros [? ?].
  - destruct (resolve g input w) as [[v|e] w1];
      specialize (IH input w1 n);
      destruct (build fs input w1) as [[record errors] w2]; simpl in *.
    + destruct (decide (name g = n)) as [->|Hne].
      * intros _. apply elem_of_cons. by left.
      * rewrite lookup_insert_ne by done. intros H.
        apply elem_of_cons. right. by apply IH.
    + intros H. apply elem_of_cons. right. by apply IH.
Qed.

Lemma verdict_insert_ne f input k v :
  name f <> k -> verdict f (<[k := v]> input) = verdict f input.
Proof. intros H. unfold verdict. by rewrite lookup_insert_ne. Qed.

Lemma verdict_insert_eq f input v :
  verdict f (<[name f := v]> input) = check_value f v.
Proof. unfold verdict. by rewrite lookup_insert_eq. Qed.

(** When every other field is fine, the errors are those of the field [k]. *)
Lemma errors_of_insert fs input k v :
  (forall f, f ∈ fs -> name f <> k -> verdict f input = None) ->
  errors_of fs (<[k := v]> input) =
  errors_of (List.filter (fun f => String.eqb (name f) k) fs) (<[k := v]> input).
Proof.
  induction fs as [|f fs IH]; intros H; [done|].
  assert (errors_of fs (<[k := v]> input) =
          errors_of (List.filter (fun f => String.eqb (name f) k) fs)
                    (<[k := v]> input)) as IH'.
  { apply IH. intros g Hg. apply H. apply elem_of_cons. by right. }
  simpl. destruct (String.eqb_spec (name f) k) as [E|E].
  - change (errors_of (f :: fs) (<[k := v]> input)) with
      ((match verdict f (<[k := v]> input) with
        | Some e => [(name f, e)] | None => [] end) ++
       errors_of fs (<[k := v]> input))%list.
    rewrite IH'. done.
  - change (errors_of (f :: fs) (<[k := v]> input)) with
      ((match verdict f (<[k := v]> input) with
        | Some e => [(name f, e)] | None => [] end) ++
       errors_of fs (<[k := v]> input))%list.
    rewrite verdict_insert_ne by done.
    rewrite H; [done | apply elem_of_cons; by left | done].
Qed.

Lemma Construct_supplied E input w f v :
  NoDup (field_names E) -> f ∈ fields E ->
  valid_input E input -> input !! name f = Some v ->
  exists r, (Construct E input w).1 = Ok r /\ r !! name f = Some v.
Proof.
  intros ND Hin V Hi. eexists. split; [by apply Construct_valid|].
  rewrite build_lookup; try done.
  - unfold given. by rewrite Hi.
  - unfold valid_input in V. rewrite Forall_forall in V. by apply V.
  - right. by rewrite Hi.
Qed.

Lemma Construct_default E input w f d :
  NoDup (field_names E) -> f ∈ fields E -> default f = Default d ->
  valid_input E input -> input !! name f = None ->
  exists r, (Construct E input w).1 = Ok r /\ r !! name f = Some d.
Proof.
  intros ND Hin Hd V Hi. eexists. split; [by apply Construct_valid|].
  rewrite build_lookup; try done.
  - unfold given. by rewrite Hi, Hd.
  - unfold valid_input in V. rewrite Forall_forall in V. by apply V.
  - left. unfold clocked. by rewrite Hd.
Qed.

(** No class of the source declares a field twice. *)
Ltac names_nodup := apply (bool_decide_unpack _); vm_compute; exact I.
Ltac by_computation := apply (bool_decide_unpack _); vm_compute; exact I.
Ltac valid_by_computation :=
  unfold valid_input; simpl; repeat constructor.

Lemma NoDup_User : NoDup (field_names User).
Proof. names_nodup. Qed.
Lemma NoDup_FoodImage : NoDup (field_names FoodImage).
Proof. names_nodup. Qed.
Lemma NoDup_FoodImageUpload : NoDup (field_names FoodImageUpload).
Proof. names_nodup. Qed.
Lemma NoDup_NutritionalAnalysis : NoDup (field_names NutritionalAnalysis).
Proof. names_nodup. Qed.
Lemma NoDup_AnalysisAllergen : NoDup (field_names AnalysisAllergen).
Proof. names_nodup. Qed.
Lemma NoDup_AnalysisAllergenCreate : NoDup (field_names AnalysisAllergenCreate).
Proof. names_nodup. Qed.
Lemma NoDup_UserAllergen : NoDup (field_names UserAllergen).
Proof. names_nodup. Qed.
Lemma NoDup_UserAllergenCreate : NoDup (field_names UserAllergenCreate).
Proof. names_nodup. Qed.

Ltac in_fields := apply list_elem_of_In; simpl; tauto.

(** ** Validation of [User.email] *)

(** C2: the pattern that [User.email] declares is not enforced.  The
    string [bob.example.com] does not match
    [^[a-zA-Z0-9_.+-]+@[a-zA-Z0-9-]+\.[a-zA-Z0-9-.]+$], yet Construct(User)
    accepts it as an email and stores it unchanged, where the specification
    asks for a ValidationError. *)
Theorem user_email_pattern_not_enforced (w : World) :
  pattern_match email_regex (str "bob.example.com") = false /\
  find_regex (kwargs (req "email" TStr [unique; max_length 255; regex_ email_regex]))
    = Some email_regex /\
  exists r, (Construct User bad_user w).1 = Ok r /\
            r !! "email" = Some (VStr (str "bob.example.com")).
Proof.
  split; [reflexivity|]. split; [reflexivity|].
  apply (Construct_supplied User bad_user w
           (req "email" TStr [unique; max_length 255; regex_ email_regex]));
    [apply NoDup_User | in_fields | valid_by_computation | reflexivity].
Qed.

(** ** Validation of [file_size] *)

(** C7: for FoodImage (and for FoodImageUpload, which declares the same
    bound) an input whose other fields are valid is rejected with a
    ValidationError on [file_size] whenever [file_size <= 0], and the same
    input with [file_size = 1] is accepted and keeps that value. *)
Theorem file_size_must_be_positive (E : Model) (input : gmap string value) (w : World) :
  E = FoodImage \/ E = FoodImageUpload ->
  (forall f, f ∈ fields E -> name f <> "file_size" -> verdict f input = None) ->
  (forall n, n <= 0 ->
     (Construct E (<["file_size" := VInt n]> input) w).1 =
     ValidationError [("file_size", NotGreaterThan 0)]) /\
  (exists r, (Construct E (<["file_size" := VInt 1]> input) w).1 = Ok r /\
             r !! "file_size" = Some (VInt 1)).
Proof.
  intros HE Hothers.
  set (f := req "file_size" TInt [gt 0]).
  assert (f ∈ fields E) as Hin by (destruct HE as [-> | ->]; in_fields).
  assert (NoDup (field_names E)) as ND
    by (destruct HE as [-> | ->]; [apply NoDup_FoodImage | apply NoDup_FoodImageUpload]).
  assert (forall v, errors_of (fields E) (<["file_size" := v]> input) =
                    match check_value f v with
                    | Some e => [("file_size", e)]
                    | None => []
                    end) as Herr.
  { intros v. rewrite errors_of_insert by done.
    destruct HE as [-> | ->]; simpl; unfold errors_of; simpl;
      rewrite (verdict_insert_eq f); by destruct (check_value f v). }
  split.
  - intros n Hn. rewrite Construct_result, Herr.
    change (check_value f (VInt n)) with (if 0 <? n then None else Some (NotGreaterThan 0)).
    destruct (Z.ltb_spec 0 n); [lia | done].
  - apply (Construct_supplied E _ w f (VInt 1) ND Hin).
    + apply errors_of_nil. by rewrite Herr.
    + apply lookup_insert_eq.
Qed.

Lemma file_size_must_be_positive_witness :
  (Construct FoodImage (<["file_size" := VInt 0]> an_upload) epoch).1 =
    ValidationError [("file_size", NotGreaterThan 0)] /\
  (exists r, (Construct FoodImage (<["file_size" := VInt 1]> an_upload) epoch).1 = Ok r /\
             r !! "file_size" = Some (VInt 1)).
Proof.
  assert (forall f, f ∈ fields FoodImage -> name f <> "file_size" ->
                    verdict f an_upload = None) as H.
  { intros f Hin Hne. apply list_elem_of_In in Hin. simpl in Hin.
    repeat (destruct Hin as [<- | Hin]; [first [reflexivity | by destruct Hne] |]).
    destruct Hin. }
  destruct (file_size_must_be_positive FoodImage an_upload epoch
              (or_introl eq_refl) H) as [H0 H1].
  split; [apply (H0 0); lia | exact H1].
Defined.

(** ** Declared defaults *)

(** C9: constructing a UserAllergenCreate without [severity] yields
    [severity = medium], and constructing an AnalysisAllergenCreate without
    [confidence] yields an absent confidence ([None]), which is no decimal
    at all, zero or other. *)
Theorem omitted_severity_and_confidence (ua aa : gmap string value) (w : World) :
  valid_input UserAllergenCreate ua -> ua !! "severity" = None ->
  valid_input AnalysisAllergenCreate aa -> aa !! "confidence" = None ->
  (exists r, (Construct UserAllergenCreate ua w).1 = Ok r /\
             r !! "severity" = Some (VSeverity MEDIUM)) /\
  (exists r, (Construct AnalysisAllergenCreate aa w).1 = Ok r /\
             r !! "confidence" = Some VNone /\
             forall d, r !! "confidence" <> Some (VDecimal d)).
Proof.
  intros Vu Hu Va Ha. split.
  - apply (Construct_default UserAllergenCreate ua w
             (dft "severity" TAllergenSeverity (VSeverity MEDIUM) []));
      [apply NoDup_UserAllergenCreate | in_fields | done | done | done].
  - destruct (Construct_default AnalysisAllergenCreate aa w
                (plain_decimal "confidence") VNone) as (r & Hr & Hl);
      [apply NoDup_AnalysisAllergenCreate | in_fields | done | done | done |].
    exists r. split; [done|]. split; [done|].
    intros d. change (name (plain_decimal "confidence")) with "confidence" in Hl.
    by rewrite Hl.
Qed.

Lemma omitted_severity_and_confidence_witness :
  (exists r, (Construct UserAllergenCreate a_user_allergen epoch).1 = Ok r /\
             r !! "severity" = Some (VSeverity MEDIUM)) /\
  (exists r, (Construct AnalysisAllergenCreate an_analysis_allergen epoch).1 = Ok r /\
             r !! "confidence" = Some VNone /\
             forall d, r !! "confidence" <> Some (VDecimal d)).
Proof.
  apply (omitted_severity_and_confidence a_user_allergen an_analysis_allergen epoch).
  - valid_by_computation.
  - reflexivity.
  - valid_by_computation.
  - reflexivity.
Defined.

(** C10: AnalysisAllergen and AnalysisAllergenCreate default an omitted
    [severity] to [low], where the UserAllergen shapes default it to
    [medium]. *)
Theorem analysis_allergen_severity_low (E U : Model) (ia iu : gmap string value) (w : World) :
  E = AnalysisAllergen \/ E = AnalysisAllergenCreate ->
  U = UserAllergen \/ U = UserAllergenCreate ->
  valid_input E ia -> ia !! "severity" = None ->
  valid_input U iu -> iu !! "severity" = None ->
  exists r u,
    (Construct E ia w).1 = Ok r /\ (Construct U iu w).1 = Ok u /\
    r !! "severity" = Some (VSeverity LOW) /\
    u !! "severity" = Some (VSeverity MEDIUM) /\
    r !! "severity" <> u !! "severity".
Proof.
  intros HE HU Va Ha Vu Hu.
  destruct (Construct_default E ia w
              (dft "severity" TAllergenSeverity (VSeverity LOW) []) (VSeverity LOW))
    as (r & Hr & Hl);
    [destruct HE as [-> | ->];
       [apply NoDup_AnalysisAllergen | apply NoDup_AnalysisAllergenCreate]
    | destruct HE as [-> | ->]; in_fields | done | done | done |].
  destruct (Construct_default U iu w
              (dft "severity" TAllergenSeverity (VSeverity MEDIUM) []) (VSeverity MEDIUM))
    as (u & Hu' & Hl');
    [destruct HU as [-> | ->];
       [apply NoDup_UserAllergen | apply NoDup_UserAllergenCreate]
    | destruct HU as [-> | ->]; in_fields | done | done | done |].
  exists r, u. simpl in Hl, Hl'. rewrite Hl, Hl'. done.
Qed.

Lemma analysis_allergen_severity_low_witness :
  exists r u,
    (Construct AnalysisAllergen an_analysis_allergen epoch).1 = Ok r /\
    (Construct UserAllergen a_user_allergen epoch).1 = Ok u /\
    r !! "severity" = Some (VSeverity LOW) /\
    u !! "severity" = Some (VSeverity MEDIUM) /\
    r !! "severity" <> u !! "severity".
Proof.
  apply (analysis_allergen_severity_low AnalysisAllergen UserAllergen
           an_analysis_allergen a_user_allergen epoch).
  - by left.
  - by left.
  - valid_by_computation.
  - reflexivity.
  - valid_by_computation.
  - reflexivity.
Defined.

(** ** Construct and the clock *)

(** C6, as stated, fails: [created_at] and [updated_at] default to
    [datetime.utcnow], so a second Construct(User) with the same field
    values, made after the first, carries later timestamps. *)
Lemma construct_reads_the_clock : ~ construct_is_deterministic.
Proof.
  intros H.
  pose (w1 := (Construct User a_user epoch).2).
  assert (exists r1 r2,
            (Construct User a_user epoch).1 = Ok r1 /\
            (Construct User a_user w1).1 = Ok r2 /\
            r1 !! "created_at" = Some (VDatetime 0) /\
            r2 !! "created_at" = Some (VDatetime 2)) as (r1 & r2 & H1 & H2 & C1 & C2).
  { eexists _, _. repeat split; vm_compute; reflexivity. }
  specialize (H User a_user epoch w1 r1 r2 H1 H2). subst r2.
  rewrite C1 in C2. discriminate.
Qed.

Lemma resolve_agree f input w1 w2 :
  (clocked f = true -> is_Some (input !! name f)) ->
  (resolve f input w1).1 = (resolve f input w2).1.
Proof.
  unfold resolve, clocked. intros H.
  destruct (input !! name f) as [v|].
  - by destruct (check_value f v).
  - destruct (default f) as [| d | [|]]; try done.
    by destruct H as [? ?].
Qed.

Lemma resolve_world_kept f input w :
  (clocked f = true -> is_Some (input !! name f)) ->
  (resolve f input w).2 = w.
Proof.
  unfold resolve, clocked. intros H.
  destruct (input !! name f) as [v|].
  - by destruct (check_value f v).
  - destruct (default f) as [| d | [|]]; try done.
    by destruct H as [? ?].
Qed.

(** Two runs agree on every attribute that no omitted clock default fills. *)
Lemma build_agree fs : forall input w1 w2 n,
  (forall f, f ∈ fs -> name f = n -> clocked f = true -> is_Some (input !! n)) ->
  (build fs input w1).1.1 !! n = (build fs input w2).1.1 !! n.
Proof.
  induction fs as [|g fs IH]; intros input w1 w2 n H; [done|].
  simpl.
  destruct (resolve g input w1) as [r1 w1'] eqn:R1.
  destruct (resolve g input w2) as [r2 w2'] eqn:R2.
  assert ((build fs input w1').1.1 !! n = (build fs input w2').1.1 !! n) as IH'.
  { apply IH. intros f Hf. apply H. apply elem_of_cons. by right. }
  destruct (build fs input w1') as [[rec1 e1] x1].
  destruct (build fs input w2') as [[rec2 e2] x2]. simpl in IH'.
  destruct (decide (name g = n)) as [E|E].
  - assert (r1 = r2) as ->.
    { change r1 with (r1, w1').1. change r2 with (r2, w2').1.
      rewrite <- R1, <- R2. apply resolve_agree. rewrite E.
      apply H; [apply elem_of_cons; by left | done]. }
    destruct r2 as [v|e]; simpl; [|done].
    by rewrite E, !lookup_insert_eq.
  - destruct r1 as [v1|e1']; destruct r2 as [v2|e2']; simpl;
      rewrite ?lookup_insert_ne by done; done.
Qed.

Lemma build_world_kept fs : forall input w,
  (forall f, f ∈ fs -> clocked f = true -> is_Some (input !! name f)) ->
  (build fs input w).2 = w.
Proof.
  induction fs as [|g fs IH]; intros input w H; [done|].
  simpl.
  assert ((resolve g input w).2 = w) as R.
  { apply resolve_world_kept. apply H. apply elem_of_cons. by left. }
  destruct (resolve g input w) as [r w1]. simpl in R. subst w1.
  assert ((build fs input w).2 = w) as B.
  { apply IH. intros f Hf. apply H. apply elem_of_cons. by right. }
  destruct (build fs input w) as [[record errors] w2]. simpl in B. subst w2.
  by destruct r.
Qed.

(** C6, amended: Construct is deterministic up to the clock.  On a valid
    input two invocations both succeed, whatever the clock shows, and the two
    records agree on every field except a timestamp that was left to its
    [utcnow] default; when the input supplies every such timestamp (or the
    class has none) the records are identical and the clock is not read. *)
Theorem construct_deterministic_up_to_clock
    (E : Model) (input : gmap string value) (w1 w2 : World) :
  valid_input E input ->
  exists r1 r2,
    (Construct E input w1).1 = Ok r1 /\
    (Construct E input w2).1 = Ok r2 /\
    (forall n,
       (forall f, f ∈ fields E -> name f = n -> clocked f = true ->
                  is_Some (input !! n)) ->
       r1 !! n = r2 !! n) /\
    ((forall f, f ∈ fields E -> clocked f = true -> is_Some (input !! name f)) ->
     r1 = r2 /\ (Construct E input w1).2 = w1).
Proof.
  intros V. eexists _, _.
  split; [by apply Construct_valid|]. split; [by apply Construct_valid|].
  split.
  - intros n H. by apply build_agree.
  - intros H. split.
    + apply map_eq. intros n. apply build_agree.
      intros f Hf <-. by apply H.
    + unfold Construct.
      pose proof (build_world_kept (fields E) input w1 H) as B.
      by destruct (build (fields E) input w1) as [[record errors] w'].
Qed.

Lemma construct_deterministic_up_to_clock_witness :
  exists r1 r2,
    (Construct User a_user epoch).1 = Ok r1 /\
    (Construct User a_user (mkWorld (fun n => 1000 + Z.of_nat n) 0)).1 = Ok r2 /\
    (forall n,
       (forall f, f ∈ fields User -> name f = n -> clocked f = true ->
                  is_Some (a_user !! n)) ->
       r1 !! n = r2 !! n) /\
    ((forall f, f ∈ fields User -> clocked f = true -> is_Some (a_user !! name f)) ->
     r1 = r2 /\ (Construct User a_user epoch).2 = epoch).
Proof.
  apply (construct_deterministic_up_to_clock User a_user epoch
           (mkWorld (fun n => 1000 + Z.of_nat n) 0)).
  valid_by_computation.
Defined.

(** ** ApplyUpdate *)

Lemma ApplyUpdate_lookup (record update : gmap string value) (k : string) :
  ApplyUpdate record update !! k =
  match update !! k with
  | Some v => if present v then Some v else record !! k
  | None => record !! k
  end.
Proof.
  unfold ApplyUpdate.
  apply (map_fold_weak_ind
    (fun r (m : gmap string value) =>
       r !! k = match m !! k with
                | Some v => if present v then Some v else record !! k
                | None => record !! k
                end)).
  - by rewrite lookup_empty.
  - intros i x m r Hi IH.
    destruct (decide (i = k)) as [->|Hne].
    + rewrite lookup_insert_eq. rewrite Hi in IH.
      destruct (present x); [by rewrite lookup_insert_eq | done].
    + rewrite lookup_insert_ne by done.
      destruct (present x); [by rewrite lookup_insert_ne | done].
Qed.

(** Both update shapes of the source leave every field absent by default. *)
Lemma empty_update (U : Model) (w : World) :
  U = UserUpdate \/ U = NutritionalAnalysisUpdate ->
  exists u, (Construct U ∅ w).1 = Ok u /\
            forall k v, u !! k = Some v -> v = VNone.
Proof.
  intros [-> | ->]; eexists; (split; [reflexivity|]);
    intros k v; cbn;
    rewrite ?lookup_insert; repeat case_decide; rewrite ?lookup_empty; congruence.
Qed.

(** C4: ApplyUpdate overwrites exactly the fields that are present in the
    update and leaves every other field of the record as it was; an update
    whose fields are all absent, such as a UserUpdate or a
    NutritionalAnalysisUpdate constructed from no values, changes nothing. *)
Theorem apply_update_frame (record update : gmap string value) (w : World) :
  (forall k v, update !! k = Some v -> present v = true ->
     ApplyUpdate record update !! k = Some v) /\
  (forall k, update !! k = None \/ update !! k = Some VNone ->
     ApplyUpdate record update !! k = record !! k) /\
  ((forall k v, update !! k = Some v -> v = VNone) ->
     ApplyUpdate record update = record) /\
  (exists u1 u2,
     (Construct UserUpdate ∅ w).1 = Ok u1 /\
     (Construct NutritionalAnalysisUpdate ∅ w).1 = Ok u2 /\
     ApplyUpdate record u1 = record /\ ApplyUpdate record u2 = record).
Proof.
  assert (forall u : gmap string value,
            (forall k v, u !! k = Some v -> v = VNone) ->
            ApplyUpdate record u = record) as Hnone.
  { intros u H. apply map_eq. intros k. rewrite ApplyUpdate_lookup.
    destruct (u !! k) as [v|] eqn:E; [|done]. by rewrite (H k v E). }
  split; [|split; [|split]].
  - intros k v Hk Hp. by rewrite ApplyUpdate_lookup, Hk, Hp.
  - intros k [Hk | Hk]; by rewrite ApplyUpdate_lookup, Hk.
  - apply Hnone.
  - destruct (empty_update UserUpdate w) as (u1 & H1 & N1); [by left|].
    destruct (empty_update NutritionalAnalysisUpdate w) as (u2 & H2 & N2); [by right|].
    exists u1, u2. repeat split; auto.
Qed.

(** ** ProjectToResponse *)

(** An instance holds the fields its class declares and no other. *)
Lemma Construct_dom E input w r n :
  (Construct E input w).1 = Ok r -> n ∉ field_names E -> r !! n = None.
Proof.
  rewrite Construct_result. intros H Hn.
  destruct (errors_of (fields E) input); [|done].
  inversion H; subst. apply eq_None_not_Some. intros S. apply Hn.
  by apply (build_dom _ input w).
Qed.

Lemma project_dom iso fs : forall (record joined : gmap string value) n,
  is_Some (project iso fs record joined !! n) -> n ∈ map name fs.
Proof.
  induction fs as [|f fs IH]; intros record joined n; simpl.
  - rewrite lookup_empty. by intros [? ?].
  - intros H. apply elem_of_cons.
    destruct (decide (n = name f)) as [->|Hne]; [by left | right].
    apply (IH record joined).
    destruct (record !! name f), (joined !! name f);
      rewrite ?lookup_insert_ne in H by done; done.
Qed.

Lemma project_hides iso (R : Model) (record joined : gmap string value) n :
  n ∉ field_names R -> ProjectToResponse iso R record joined !! n = None.
Proof.
  intros H. apply eq_None_not_Some. intros S. apply H.
  by apply (project_dom iso _ record joined).
Qed.

(** A field the response shape declares shows the record's value, a
    timestamp as its ISO string. *)
Lemma project_lookup iso fs : forall (record joined : gmap string value) f v,
  NoDup (map name fs) -> f ∈ fs -> record !! name f = Some v ->
  project iso fs record joined !! name f = Some (shown iso f v).
Proof.
  induction fs as [|g fs IH]; intros record joined f v ND Hin Hv.
  - by apply elem_of_nil in Hin.
  - simpl in ND. apply NoDup_cons in ND as [Hg ND]. simpl.
    apply elem_of_cons in Hin as [-> | Hin].
    + rewrite Hv. by rewrite lookup_insert_eq.
    + assert (name g <> name f) as Hne.
      { intros E. apply Hg. rewrite E. apply list_elem_of_fmap. by exists f. }
      destruct (record !! name g), (joined !! name g);
        rewrite ?lookup_insert_ne by done; by apply IH.
Qed.

(** C5: whatever the NutritionalAnalysis record and the joined rows hold,
    the NutritionalAnalysisResponse made from them has no [raw_response]
    and no [error_message]; neither response shape of the source declares
    such a field, so FoodImageResponse has none either, and no instance of
    a response class has one, whatever values it is constructed from. *)
Theorem response_hides_internal_fields
    (isoformat : datetime -> pystr) (record joined : gmap string value) (w : World) :
  ProjectToResponse isoformat NutritionalAnalysisResponse record joined
    !! "raw_response" = None /\
  ProjectToResponse isoformat NutritionalAnalysisResponse record joined
    !! "error_message" = None /\
  ProjectToResponse isoformat FoodImageResponse record joined
    !! "raw_response" = None /\
  ProjectToResponse isoformat FoodImageResponse record joined
    !! "error_message" = None /\
  ("raw_response" ∉ field_names NutritionalAnalysisResponse) /\
  ("error_message" ∉ field_names NutritionalAnalysisResponse) /\
  ("raw_response" ∉ field_names FoodImageResponse) /\
  ("error_message" ∉ field_names FoodImageResponse) /\
  (forall r, (Construct NutritionalAnalysisResponse record w).1 = Ok r ->
             r !! "raw_response" = None /\ r !! "error_message" = None) /\
  (forall r, (Construct FoodImageResponse record w).1 = Ok r ->
             r !! "raw_response" = None /\ r !! "error_message" = None).
Proof.
  assert ("raw_response" ∉ field_names NutritionalAnalysisResponse) as H1
    by (apply (bool_decide_unpack _); vm_compute; exact I).
  assert ("error_message" ∉ field_names NutritionalAnalysisResponse) as H2
    by (apply (bool_decide_unpack _); vm_compute; exact I).
  assert ("raw_response" ∉ field_names FoodImageResponse) as H3
    by (apply (bool_decide_unpack _); vm_compute; exact I).
  assert ("error_message" ∉ field_names FoodImageResponse) as H4
    by (apply (bool_decide_unpack _); vm_compute; exact I).
  repeat split; try done; try (by apply project_hides);
    by eapply Construct_dom.
Qed.

(** ** Create shapes against their persistent models *)


Lemma annot_eqb_eq a b : annot_eqb a b = true -> a = b.
Proof. by destruct a, b. Qed.

Lemma option_nat_eqb_eq a b : option_nat_eqb a b = true -> a = b.
Proof.
  destruct a, b; simpl; try done. intros H. f_equal. by apply Nat.eqb_eq.
Qed.


Lemma is_none_eq {A} (o : option A) : is_none o = true -> o = None.
Proof. by destruct o. Qed.




Lemma get_field_Some E n f :
  get_field E n = Some f -> f ∈ fields E /\ name f = n.
Proof.
  unfold get_field. intros H. apply find_some in H as [Hin Hn].
  split; [by apply list_elem_of_In | by apply String.eqb_eq].
Qed.



(** ** Confidence values *)

(** C3: [decimal_places=4, max_digits=5] bounds digit counts and nothing
    else.  Construct(NutritionalAnalysis, food_image_id=42,
    confidence_score=1.0000) succeeds, and so does the same with 1.0001,
    which the specification says must fail; 9.9999 and -1.0000 pass as well,
    for [confidence_score] and for [AnalysisAllergen.confidence]. *)
Theorem confidence_above_one_is_accepted (w : World) :
  (exists r, (Construct NutritionalAnalysis (analysis_with one) w).1 = Ok r /\
             r !! "confidence_score" = Some one) /\
  (exists r, (Construct NutritionalAnalysis (analysis_with above_one) w).1 = Ok r /\
             r !! "confidence_score" = Some above_one) /\
  accepts NutritionalAnalysis "confidence_score" nearly_ten = true /\
  accepts NutritionalAnalysis "confidence_score" minus_one = true /\
  accepts AnalysisAllergen "confidence" above_one = true /\
  accepts AnalysisAllergen "confidence" nearly_ten = true /\
  accepts AnalysisAllergen "confidence" minus_one = true.
Proof.
  split; [|split; [|by repeat split]].
  - apply (Construct_supplied NutritionalAnalysis _ w
             (opt "confidence_score" TDecimal [decimal_places 4; max_digits 5]));
      [apply NoDup_NutritionalAnalysis | in_fields | valid_by_computation | reflexivity].
  - apply (Construct_supplied NutritionalAnalysis _ w
             (opt "confidence_score" TDecimal [decimal_places 4; max_digits 5]));
      [apply NoDup_NutritionalAnalysis | in_fields | valid_by_computation | reflexivity].
Qed.

(** * Further properties of the declarations *)

(** ** What the email fields accept *)

(** X1: the three email fields accept exactly the strings of at most 255
    characters.  [User.email] declares a pattern besides the length bound,
    but the pattern rejects nothing: like [UserCreate.email] and
    [UserUpdate.email], the field takes every string within the bound,
    whether or not the pattern matches it. *)
Theorem email_fields_accept (s : pystr) :
  (accepts User "email" (VStr s) = true <-> (length s <= 255)%nat) /\
  (accepts UserCreate "email" (VStr s) = true <-> (length s <= 255)%nat) /\
  (accepts UserUpdate "email" (VStr s) = true <-> (length s <= 255)%nat).
Proof.
  change (accepts User "email" (VStr s)) with
    (match check_str [unique; max_length 255; regex_ email_regex] s with
     | None => true | Some _ => false end).
  change (accepts UserCreate "email" (VStr s)) with
    (match check_str [max_length 255] s with
     | None => true | Some _ => false end).
  change (accepts UserUpdate "email" (VStr s)) with
    (match check_str [max_length 255] s with
     | None => true | Some _ => false end).
  unfold check_str. cbn [find_max_length].
  destruct (Nat.ltb_spec 255 (length s)); intuition (try done; try lia).
Qed.

(** ** From a validated shape to the persistent model *)

Lemma no_stricter_sound p c v :
  no_stricter p c = true -> check_value c v = None -> check_value p v = None.
Proof.
  unfold no_stricter. rewrite !andb_true_iff.
  intros [[[[[[Ha Ho] Hl] Hg] Hr] Hp] Hd].
  apply annot_eqb_eq in Ha. apply is_none_eq in Hr, Hp, Hd.
  unfold check_value. rewrite Ha.
  destruct v, (annotation c); try done.
  - destruct (optional c); [|done]. by destruct (optional p).
  - destruct (optional c); [|done]. by destruct (optional p).
  - destruct (optional c); [|done]. by destruct (optional p).
  - destruct (optional c); [|done]. by destruct (optional p).
  - destruct (optional c); [|done]. by destruct (optional p).
  - destruct (optional c); [|done]. by destruct (optional p).
  - destruct (optional c); [|done]. by destruct (optional p).
  - destruct (optional c); [|done]. by destruct (optional p).
  - destruct (optional c); [|done]. by destruct (optional p).
  - unfold check_int.
    destruct (find_gt (kwargs p)) as [a|]; [|done].
    destruct (find_gt (kwargs c)) as [b|]; [|done].
    apply Z.leb_le in Hg.
    destruct (Z.ltb_spec b n); [|done]. intros _.
    destruct (Z.ltb_spec a n); [done | lia].
  - unfold check_str.
    destruct (find_max_length (kwargs p)) as [a|]; [|done].
    destruct (find_max_length (kwargs c)) as [b|]; [|done].
    apply Nat.leb_le in Hl.
    destruct (Nat.ltb_spec b (length s)); [done|]. intros _.
    destruct (Nat.ltb_spec a (length s)); [lia | done].
  - unfold check_decimal. rewrite Hp, Hd.
    destruct d; [|done..]. by destruct (digit_counts digits exponent).
Qed.

(** What a successful Construct stored for a field that the clock does not
    fill: a value, and one that the field's own validation passes. *)
Lemma Construct_stored C input w r c :
  (Construct C input w).1 = Ok r ->
  NoDup (field_names C) -> c ∈ fields C ->
  clocked c = false -> default_ok c = true ->
  exists v, r !! name c = Some v /\ check_value c v = None.
Proof.
  intros HC ND Hc Hk Hd.
  pose proof (Construct_Ok_valid _ _ _ _ HC) as V.
  rewrite Construct_valid in HC by done. inversion HC; subst r; clear HC.
  unfold valid_input in V. rewrite Forall_forall in V.
  pose proof (V c Hc) as Hv.
  rewrite build_lookup by (try done; by left).
  unfold given, verdict, default_ok, clocked in *.
  destruct (input !! name c) as [x|].
  - by exists x.
  - destruct (default c) as [| d | [|]]; try done.
    + exists d. split; [done|]. by destruct (check_value c d).
    + exists (VList []). split; [done|]. by destruct (check_value c (VList [])).
Qed.

Lemma get_field_NoDup E f :
  NoDup (field_names E) -> f ∈ fields E -> get_field E (name f) = Some f.
Proof.
  unfold field_names, get_field. induction (fields E) as [|g fs IH]; intros ND Hin.
  - by apply elem_of_nil in Hin.
  - simpl in ND. apply NoDup_cons in ND as [Hg ND]. simpl.
    apply elem_of_cons in Hin as [-> | Hin].
    + by rewrite String.eqb_refl.
    + destruct (String.eqb_spec (name g) (name f)) as [E'|E']; [|by apply IH].
      destruct Hg. rewrite E'. apply list_elem_of_fmap. by exists f.
Qed.

Lemma verdict_union_l p (r more : gmap string value) v :
  r !! name p = Some v -> verdict p (r ∪ more) = check_value p v.
Proof. intros H. unfold verdict. by rewrite (lookup_union_Some_l _ _ _ _ H). Qed.

Lemma verdict_union_r p (r more : gmap string value) :
  r !! name p = None -> verdict p (r ∪ more) = verdict p more.
Proof. intros H. unfold verdict. by rewrite lookup_union_r. Qed.

(** A record that [C] validated, completed by [more] for the fields that
    [C] does not declare, is valid for [P] when [C] feeds [P]. *)
Lemma feeds_valid C P input more w r :
  feeds C P = true ->
  NoDup (field_names C) -> NoDup (field_names P) ->
  (Construct C input w).1 = Ok r ->
  (forall p, p ∈ fields P -> name p ∉ field_names C -> verdict p more = None) ->
  valid_input P (r ∪ more).
Proof.
  intros F NC NP HC Hmore. unfold valid_input. rewrite Forall_forall.
  intros p Hp.
  destruct (decide (name p ∈ field_names C)) as [Hin | Hout].
  - unfold field_names in Hin. apply list_elem_of_fmap in Hin as (c & Hn & Hc).
    unfold feeds in F. rewrite forallb_forall in F.
    pose proof (F c (proj1 (list_elem_of_In _ _) Hc)) as Fc.
    rewrite !andb_true_iff, negb_true_iff in Fc. destruct Fc as [[Hk Hd] Hs].
    rewrite <- Hn, (get_field_NoDup P p NP Hp) in Hs.
    destruct (Construct_stored C input w r c HC NC Hc Hk Hd) as (v & Hv & Hcv).
    rewrite <- Hn in Hv. rewrite (verdict_union_l _ _ _ _ Hv).
    by apply (no_stricter_sound p c).
  - rewrite verdict_union_r; [by apply Hmore|].
    by apply (Construct_dom C input w).
Qed.

(** X2: an AllergenCreate, a UserAllergenCreate or a FoodImageUpload that
    validated always makes a valid Allergen, UserAllergen or FoodImage: fed
    to the persistent model, together with valid values for the fields the
    shape does not declare (the [user_id] of a FoodImage), it is accepted,
    and the record keeps every value of the shape. *)
Theorem validated_shape_feeds_model
    (C P : Model) (input more : gmap string value) (w w' : World)
    (r : gmap string value) :
  (C, P) ∈ feeding_shapes ->
  (Construct C input w).1 = Ok r ->
  (forall p, p ∈ fields P -> name p ∉ field_names C -> verdict p more = None) ->
  exists a,
    (Construct P (r ∪ more) w').1 = Ok a /\
    forall n, n ∈ field_names C -> n ∈ field_names P ->
              is_Some (r !! n) /\ a !! n = r !! n.
Proof.
  intros HCP HC Hmore.
  assert (feeds C P = true /\ NoDup (field_names C) /\ NoDup (field_names P))
    as (F & NC & NP).
  { apply list_elem_of_In in HCP. simpl in HCP.
    repeat (destruct HCP as [HCP | HCP];
            [inversion HCP; subst;
             split; [vm_compute; reflexivity | split; names_nodup]|]).
    destruct HCP. }
  pose proof (feeds_valid C P input more w r F NC NP HC Hmore) as V.
  eexists. split; [by apply Construct_valid|].
  intros n HnC HnP.
  unfold field_names in HnC, HnP.
  apply list_elem_of_fmap in HnC as (c & -> & Hc).
  apply list_elem_of_fmap in HnP as (p & Hn & Hp).
  unfold feeds in F. rewrite forallb_forall in F.
  pose proof (F c (proj1 (list_elem_of_In _ _) Hc)) as Fc.
  rewrite !andb_true_iff, negb_true_iff in Fc. destruct Fc as [[Hk Hd] _].
  destruct (Construct_stored C input w r c HC NC Hc Hk Hd) as (v & Hv & _).
  split; [by rewrite Hv|].
  rewrite Hn. rewrite build_lookup; try done.
  - unfold given. rewrite <- Hn. by rewrite (lookup_union_Some_l _ _ _ _ Hv).
  - unfold valid_input in V. rewrite Forall_forall in V. by apply V.
  - right. rewrite <- Hn. rewrite (lookup_union_Some_l _ _ _ _ Hv). by eexists.
Qed.

Lemma validated_shape_feeds_model_witness :
  exists a,
    (Construct FoodImage
       ((build (fields FoodImageUpload) an_upload_form epoch).1.1 ∪ an_owner)
       epoch).1 = Ok a /\
    forall n, n ∈ field_names FoodImageUpload -> n ∈ field_names FoodImage ->
              is_Some ((build (fields FoodImageUpload) an_upload_form epoch).1.1 !! n) /\
              a !! n = (build (fields FoodImageUpload) an_upload_form epoch).1.1 !! n.
Proof.
  apply (validated_shape_feeds_model FoodImageUpload FoodImage
           an_upload_form an_owner epoch epoch).
  - apply list_elem_of_In. simpl. tauto.
  - vm_compute. reflexivity.
  - intros p Hp Hn. apply list_elem_of_In in Hp. simpl in Hp.
    repeat (destruct Hp as [<- | Hp];
            [first [reflexivity
                   | destruct Hn; apply list_elem_of_In; simpl; tauto] |]).
    destruct Hp.
Defined.

Lemma verdict_stored p (r : gmap string value) v :
  r !! name p = Some v -> check_value p v = None -> verdict p r = None.
Proof. intros H C. unfold verdict. by rewrite H. Qed.

Lemma verdict_absent p (r : gmap string value) :
  r !! name p = None -> default p <> Required -> verdict p r = None.
Proof. intros H D. unfold verdict. rewrite H. by destruct (default p). Qed.

(** X3: a UserCreate that validated always makes a valid User: the
    persistent model accepts the validated record whatever the shape of its
    email, a string of at most 255 characters, and keeps the username, the
    email and the full name as they are. *)
Theorem validated_user_create_feeds_user
    (input : gmap string value) (w w' : World) (r : gmap string value) :
  (Construct UserCreate input w).1 = Ok r ->
  exists s a,
    r !! "email" = Some (VStr s) /\ (length s <= 255)%nat /\
    (Construct User r w').1 = Ok a /\
    a !! "username" = r !! "username" /\
    a !! "email" = r !! "email" /\
    a !! "full_name" = r !! "full_name".
Proof.
  intros HC.
  assert (NoDup (field_names UserCreate)) as NC by names_nodup.
  destruct (Construct_stored UserCreate input w r
              (req "email" TStr [max_length 255]) HC NC) as (v & Hv & Hcv);
    [in_fields | done | done |].
  destruct (Construct_stored UserCreate input w r
              (req "username" TStr [max_length 50]) HC NC) as (u & Hu & Hcu);
    [in_fields | done | done |].
  destruct (Construct_stored UserCreate input w r
              (opt "full_name" TStr [max_length 100]) HC NC) as (f & Hf & Hcf);
    [in_fields | done | done |].
  change (name (req "email" TStr [max_length 255])) with "email" in Hv.
  change (name (req "username" TStr [max_length 50])) with "username" in Hu.
  change (name (opt "full_name" TStr [max_length 100])) with "full_name" in Hf.
  destruct v as [| | |s| | | | | |]; try done.
  assert (length s <= 255)%nat as Hlen.
  { change (check_value _ (VStr s)) with (check_str [max_length 255] s) in Hcv.
    unfold check_str in Hcv. cbn [find_max_length] in Hcv.
    by destruct (Nat.ltb_spec 255 (length s)). }
  assert (valid_input User r) as V.
  { unfold valid_input. rewrite Forall_forall. intros p Hp.
    apply list_elem_of_In in Hp. simpl in Hp.
    destruct Hp as [<- | [<- | [<- | [<- | [<- | [<- | [<- | []]]]]]]].
    + apply verdict_absent; [|done].
      apply (Construct_dom UserCreate input w); [done | by_computation].
    + by apply (verdict_stored _ r u).
    + by apply (verdict_stored _ r (VStr s)).
    + by apply (verdict_stored _ r f).
    + apply verdict_absent; [|done].
      apply (Construct_dom UserCreate input w); [done | by_computation].
    + apply verdict_absent; [|done].
      apply (Construct_dom UserCreate input w); [done | by_computation].
    + apply verdict_absent; [|done].
      apply (Construct_dom UserCreate input w); [done | by_computation]. }
  exists s. eexists. split; [done|]. split; [done|].
  split; [by apply Construct_valid|].
  assert (forall p v, p ∈ fields User -> r !! name p = Some v ->
            (build (fields User) r w').1.1 !! name p = r !! name p) as L.
  { intros p x Hp Hx. rewrite build_lookup; try done.
    - unfold given. by rewrite Hx.
    - apply NoDup_User.
    - unfold valid_input in V. rewrite Forall_forall in V. by apply V.
    - right. by rewrite Hx. }
  split; [|split].
  - apply (L (req "username" TStr [max_length 50; unique]) u); [in_fields | done].
  - apply (L (req "email" TStr [unique; max_length 255; regex_ email_regex]) (VStr s));
      [in_fields | done].
  - apply (L (opt "full_name" TStr [max_length 100]) f); [in_fields | done].
Qed.

Lemma validated_user_create_feeds_user_witness :
  exists s a,
    (build (fields UserCreate) bad_user epoch).1.1 !! "email" = Some (VStr s) /\
    (length s <= 255)%nat /\
    (Construct User (build (fields UserCreate) bad_user epoch).1.1 epoch).1 = Ok a /\
    a !! "username" = (build (fields UserCreate) bad_user epoch).1.1 !! "username" /\
    a !! "email" = (build (fields UserCreate) bad_user epoch).1.1 !! "email" /\
    a !! "full_name" = (build (fields UserCreate) bad_user epoch).1.1 !! "full_name".
Proof.
  apply (validated_user_create_feeds_user bad_user epoch epoch).
  vm_compute. reflexivity.
Defined.

(** ** Update shapes *)

(** X4: every field of UserUpdate and of NutritionalAnalysisUpdate is
    optional with default [None], is a field of the persistent model under
    the same name, type and length bound, and accepts every value that the
    persistent field accepts; so an update shape is constructed from any
    input whose supplied values pass, whichever fields are left out. *)
Theorem update_shape_is_partial (U P : Model) (c : FieldDecl) :
  (U, P) ∈ update_shapes -> c ∈ fields U ->
  (optional c = true /\ default c = Default VNone /\
   exists p, p ∈ fields P /\ name p = name c /\
             annotation p = annotation c /\
             find_max_length (kwargs p) = find_max_length (kwargs c) /\
             forall v, check_value p v = None -> check_value c v = None) /\
  (forall input w,
     (forall f v, f ∈ fields U -> input !! name f = Some v ->
                  check_value f v = None) ->
     exists r, (Construct U input w).1 = Ok r).
Proof.
  intros HUP Hc.
  assert (partial_of U P = true) as Hp.
  { apply list_elem_of_In in HUP. simpl in HUP.
    repeat (destruct HUP as [HUP | HUP];
            [inversion HUP; subst; vm_compute; reflexivity|]).
    destruct HUP. }
  unfold partial_of in Hp. rewrite forallb_forall in Hp.
  split.
  - specialize (Hp c (proj1 (list_elem_of_In _ _) Hc)).
    rewrite !andb_true_iff in Hp. destruct Hp as [[Hd Ho] Hg].
    split; [done|]. split.
    { unfold default_is_none in Hd.
      destruct (default c) as [| [] |]; done. }
    destruct (get_field P (name c)) as [p|] eqn:G; [|done].
    apply andb_true_iff in Hg as [Hs Hl].
    apply get_field_Some in G as [Hin Hn]. exists p.
    split; [done|]. split; [done|]. split.
    { unfold no_stricter in Hs. rewrite !andb_true_iff in Hs.
      symmetry. apply annot_eqb_eq. tauto. }
    split; [symmetry; by apply option_nat_eqb_eq|].
    intros v. by apply no_stricter_sound.
  - intros input w Hin. eexists. apply Construct_valid.
    unfold valid_input. rewrite Forall_forall. intros f Hf.
    specialize (Hp f (proj1 (list_elem_of_In _ _) Hf)).
    rewrite !andb_true_iff in Hp. destruct Hp as [[Hd _] _].
    unfold verdict. destruct (input !! name f) as [v|] eqn:E.
    + by apply Hin.
    + unfold default_is_none in Hd. by destruct (default f).
Qed.

Lemma update_shape_is_partial_witness :
  (optional (opt "email" TStr [max_length 255]) = true /\
   default (opt "email" TStr [max_length 255]) = Default VNone /\
   exists p, p ∈ fields User /\ name p = "email" /\
             annotation p = TStr /\
             find_max_length (kwargs p) = Some 255%nat /\
             forall v, check_value p v = None ->
                       check_value (opt "email" TStr [max_length 255]) v = None) /\
  (forall input w,
     (forall f v, f ∈ fields UserUpdate -> input !! name f = Some v ->
                  check_value f v = None) ->
     exists r, (Construct UserUpdate input w).1 = Ok r).
Proof.
  apply (update_shape_is_partial UserUpdate User (opt "email" TStr [max_length 255])).
  - apply list_elem_of_In. simpl. tauto.
  - apply list_elem_of_In. simpl. tauto.
Defined.

(** ** Declared defaults *)

(** X5: in every class of the source, each declared default passes the
    validation of its own field (defaults are not validated at
    construction), and no class declares two fields of one name. *)
Theorem declared_defaults_are_valid :
  Forall (fun E => Forall (fun f => default_ok f = true) (fields E) /\
                   NoDup (field_names E)) all_models.
Proof.
  by_computation.
Qed.

(** ** Tables, foreign keys and relationships *)

#[global] Instance class_item_eq_dec : EqDecision class_item.
Proof. solve_decision. Defined.
#[global] Instance regex_eq_dec : EqDecision regex.
Proof. solve_decision. Defined.
#[global] Instance kwarg_eq_dec : EqDecision kwarg.
Proof. solve_decision. Defined.
#[global] Instance annot_eq_dec : EqDecision annot.
Proof. solve_decision. Defined.
#[global] Instance multiplicity_eq_dec : EqDecision multiplicity.
Proof. solve_decision. Defined.

(** X6: the six tables have distinct names, each has the single primary key
    [id], an optional integer that defaults to [None], and every
    [foreign_key] of every table names the primary key of one of the six
    tables, from a column of the same type. *)
Theorem foreign_keys_reference_primary_keys :
  NoDup (map fst tables) /\
  Forall (fun t =>
    table t.2 = true /\
    List.filter (fun f => bool_decide (primary_key ∈ kwargs f)) (fields t.2) =
      [opt "id" TInt [primary_key]] /\
    Forall (fun ft =>
      Exists (fun P =>
        Exists (fun p =>
          ft.2 = P.1 +:+ "." +:+ name p /\
          primary_key ∈ kwargs p /\
          annotation p = annotation ft.1) (fields P.2)) tables)
      (foreign_keys t.2)) tables.
Proof.
  split; [by_computation|].
  unfold tables.
  repeat (apply List.Forall_cons;
          [split; [reflexivity | split; [vm_compute; reflexivity | by_computation]]|]).
  apply List.Forall_nil.
Qed.

(** X7: every relationship attribute is answered by the attribute its
    [back_populates] names: that one belongs to the target class, points
    back, and names the first in turn.  Of the two, exactly one is a plain
    reference, and its class holds the foreign key to the other's table;
    the other side is a list, or an optional single object exactly when
    that foreign key is declared unique. *)
Theorem relationships_are_paired :
  Forall (fun r =>
    Exists (fun b =>
      owner b = target r /\ attribute b = back_populates r /\
      target b = owner r /\ back_populates b = attribute r /\
      (kind r = One ->
         kind b <> One /\
         Exists (fun t => cls t.2 = owner r /\
                          references t.2 (target r)
                            (bool_decide (kind b = OptionalOne))) tables) /\
      (kind r <> One -> kind b = One)) relationship_decls) relationship_decls /\
  Forall (fun t => relationships t.2 = relationships_of (cls t.2)) tables.
Proof.
  split.
  - unfold relationship_decls.
    repeat (apply List.Forall_cons; [by_computation|]).
    apply List.Forall_nil.
  - by_computation.
Qed.

(** ** The enumerations *)

(** X8: a member of either enumeration is recovered from its string value
    and from no other string: the lookup is by value, so the member's name
    in capitals is not accepted. *)
Theorem enum_values_round_trip (v : string) :
  (forall s, status_of_value v = Some s <-> v = status_value s) /\
  (forall s, severity_of_value v = Some s <-> v = severity_value s) /\
  status_of_value "PENDING" = None /\
  severity_of_value "LOW" = None.
Proof.
  split; [|split; [|by split]].
  - intros s. split.
    + unfold status_of_value. intros H. apply find_some in H as [_ H].
      symmetry. by apply String.eqb_eq.
    + intros ->. by destruct s.
  - intros s. split.
    + unfold severity_of_value. intros H. apply find_some in H as [_ H].
      symmetry. by apply String.eqb_eq.
    + intros ->. by destruct s.
Qed.

(** X9: the order that members of [AllergenSeverity] inherit from [str] is
    the alphabetical order of their values, high < low < medium < severe,
    and not the order of increasing severity: [HIGH < LOW] holds and
    [LOW < HIGH] does not. *)
Theorem severity_order_is_alphabetical (a b : AllergenSeverity) :
  (severity_lt a b = true <-> alphabetical_rank a < alphabetical_rank b) /\
  severity_lt HIGH LOW = true /\ severity_lt LOW HIGH = false.
Proof.
  split; [|by split].
  destruct a, b; vm_compute; split; intros H; try done; try discriminate.
Qed.

(** ** Readings of the clock *)

Lemma later_0 w : later w 0 = w.
Proof. destruct w. unfold later. simpl. by rewrite Nat.add_0_r. Qed.

Lemma later_later w n m : later (later w n) m = later w (n + m).
Proof. unfold later. simpl. by rewrite Nat.add_assoc. Qed.

Lemma resolve_world f input w :
  (resolve f input w).2 = later w (if reads_clock f input then 1 else 0).
Proof.
  unfold resolve, reads_clock, clocked.
  destruct (input !! name f) as [v|]; simpl.
  - rewrite andb_false_r, later_0. by destruct (check_value f v).
  - destruct (default f) as [| d | [|]]; simpl; rewrite ?later_0; try done.
    unfold later. by rewrite Nat.add_1_r.
Qed.

Lemma build_world fs : forall input w,
  (build fs input w).2 = later w (clock_reads fs input).
Proof.
  induction fs as [|f fs IH]; intros input w.
  - simpl. by rewrite later_0.
  - simpl. pose proof (resolve_world f input w) as R.
    destruct (resolve f input w) as [r w1]. simpl in R. subst w1.
    pose proof (IH input (later w (if reads_clock f input then 1 else 0))) as B.
    destruct (build fs input _) as [[record errors] w2]. simpl in B. subst w2.
    rewrite later_later. unfold clock_reads. simpl.
    destruct r; by destruct (reads_clock f input).
Qed.

(** An omitted timestamp holds the reading that follows those of the
    omitted timestamps declared before it. *)
Lemma build_clocked_lookup pre f post : forall input w,
  NoDup (map name (pre ++ f :: post)) ->
  default f = DefaultFactory utcnow -> input !! name f = None ->
  (build (pre ++ f :: post) input w).1.1 !! name f =
  Some (VDatetime (wall w (reads w + clock_reads pre input))).
Proof.
  induction pre as [|g pre IH]; intros input w ND Hd Hi.
  - simpl. unfold resolve. rewrite Hi, Hd. simpl.
    destruct (build post input _) as [[record errors] w2]. simpl.
    rewrite lookup_insert_eq. unfold clock_reads. simpl. by rewrite Nat.add_0_r.
  - simpl in ND. apply NoDup_cons in ND as [Hg ND].
    assert (name g <> name f) as Hne.
    { intros E. apply Hg. rewrite E. rewrite map_app. apply elem_of_app. right.
      apply elem_of_cons. by left. }
    simpl. pose proof (resolve_world g input w) as R.
    destruct (resolve g input w) as [r w1]. simpl in R. subst w1.
    specialize (IH input (later w (if reads_clock g input then 1 else 0)) ND Hd Hi).
    destruct (build (pre ++ f :: post) input _) as [[record errors] w2].
    simpl in IH.
    assert (record !! name f =
            Some (VDatetime (wall w (reads w + clock_reads (g :: pre) input)))) as K.
    { rewrite IH. unfold clock_reads. simpl.
      destruct (reads_clock g input); simpl; do 3 f_equal; lia. }
    destruct r; simpl; rewrite ?lookup_insert_ne by done; done.
Qed.

(** X10: Construct reads the clock once for each timestamp field that the
    input leaves out, in declaration order, and not otherwise.  A User or a
    NutritionalAnalysis made without [created_at] and [updated_at] holds two
    consecutive readings: [updated_at] is read after [created_at], and the
    two differ whenever the clock moved in between. *)
Theorem timestamps_are_consecutive_readings
    (E : Model) (input : gmap string value) (w : World) :
  E = User \/ E = NutritionalAnalysis ->
  valid_input E input ->
  input !! "created_at" = None -> input !! "updated_at" = None ->
  exists r,
    (Construct E input w).1 = Ok r /\
    r !! "created_at" = Some (VDatetime (wall w (reads w))) /\
    r !! "updated_at" = Some (VDatetime (wall w (S (reads w)))) /\
    (Construct E input w).2 = later w 2.
Proof.
  intros HE V Hc Hu. eexists. split; [by apply Construct_valid|].
  assert (exists pre,
            fields E = (pre ++ [now "created_at"; now "updated_at"])%list /\
            forallb (fun f => negb (clocked f)) pre = true) as (pre & Hf & Hpre).
  { exists (removelast (removelast (fields E))).
    destruct HE as [-> | ->]; (split; [reflexivity | reflexivity]). }
  assert (NoDup (map name (fields E))) as ND
    by (destruct HE as [-> | ->]; by_computation).
  assert (clock_reads pre input = 0%nat) as H0.
  { clear -Hpre. unfold clock_reads, reads_clock.
    induction pre as [|g pre IH]; [done|]. simpl in *.
    apply andb_true_iff in Hpre as [Hg Hpre]. apply negb_true_iff in Hg.
    rewrite Hg. simpl. by apply IH. }
  split; [|split].
  - pose proof (build_clocked_lookup pre (now "created_at") [now "updated_at"]
                  input w) as L.
    rewrite <- Hf in L. change (name (now "created_at")) with "created_at" in L.
    rewrite L; [|done..].
    by rewrite H0, Nat.add_0_r.
  - pose proof (build_clocked_lookup (pre ++ [now "created_at"])
                  (now "updated_at") [] input w) as L.
    rewrite <- app_assoc in L.
    change ([now "created_at"] ++ [now "updated_at"])%list
      with [now "created_at"; now "updated_at"] in L.
    rewrite <- Hf in L. change (name (now "updated_at")) with "updated_at" in L.
    rewrite L; [|done..].
    unfold clock_reads in *. rewrite List.filter_app, length_app, H0. simpl.
    unfold reads_clock. simpl. rewrite Hc. simpl. by rewrite Nat.add_1_r.
  - unfold Construct.
    pose proof (build_world (fields E) input w) as B.
    destruct (build (fields E) input w) as [[record errors] w2]. simpl in *.
    rewrite B. f_equal. rewrite Hf.
    unfold clock_reads in *. rewrite List.filter_app, length_app, H0. simpl.
    unfold reads_clock. simpl. by rewrite Hc, Hu.
Qed.

Lemma timestamps_are_consecutive_readings_witness :
  exists r,
    (Construct User a_user epoch).1 = Ok r /\
    r !! "created_at" = Some (VDatetime 0) /\
    r !! "updated_at" = Some (VDatetime 1) /\
    (Construct User a_user epoch).2 = later epoch 2.
Proof.
  apply (timestamps_are_consecutive_readings User a_user epoch).
  - by left.
  - valid_by_computation.
  - reflexivity.
  - reflexivity.
Defined.

(** ** Required fields *)

Lemma check_value_not_Missing f v : check_value f v <> Some Missing.
Proof.
  unfold check_value, check_int, check_str, check_decimal.
  destruct v, (annotation f); try done;
    repeat match goal with
    | |- context [if ?b then _ else _] => destruct b
    | |- context [match ?o with Some _ => _ | None => _ end] => destruct o
    | |- context [match ?d with Finite _ _ _ => _ | _ => _ end] => destruct d
    | |- context [let '(_, _) := ?p in _] => destruct p
    end; done.
Qed.

(** X11: Construct reports a field as missing exactly when the class
    declares it without a default and the input leaves it out.  The fields
    without a default are: [username] and [email] for User and UserCreate;
    [user_id], [filename], [file_path], [file_size] and [mime_type] for
    FoodImage (all but [user_id] for FoodImageUpload); [food_image_id] alone
    for NutritionalAnalysis and NutritionalAnalysisCreate; [name] for
    Allergen and AllergenCreate; the two foreign keys for the allergen
    links; none for the Update shapes. *)
Theorem missing_fields_are_the_required_ones
    (E : Model) (input : gmap string value) (w : World) (n : string) :
  ((exists es, (Construct E input w).1 = ValidationError es /\ (n, Missing) ∈ es) <->
   n ∈ required_names E /\ input !! n = None) /\
  required_names User = ["username"; "email"] /\
  required_names UserCreate = ["username"; "email"] /\
  required_names UserUpdate = [] /\
  required_names FoodImage =
    ["user_id"; "filename"; "file_path"; "file_size"; "mime_type"] /\
  required_names FoodImageUpload =
    ["filename"; "file_path"; "file_size"; "mime_type"] /\
  required_names NutritionalAnalysis = ["food_image_id"] /\
  required_names NutritionalAnalysisCreate = ["food_image_id"] /\
  required_names NutritionalAnalysisUpdate = [] /\
  required_names Allergen = ["name"] /\
  required_names AllergenCreate = ["name"] /\
  required_names AnalysisAllergen = ["analysis_id"; "allergen_id"] /\
  required_names AnalysisAllergenCreate = ["analysis_id"; "allergen_id"] /\
  required_names UserAllergen = ["user_id"; "allergen_id"] /\
  required_names UserAllergenCreate = ["user_id"; "allergen_id"].
Proof.
  split; [|by repeat split].
  unfold required_names. rewrite list_elem_of_fmap. split.
  - intros (es & HC & Hin). rewrite Construct_result in HC.
    assert (es = errors_of (fields E) input) as ->
      by (destruct (errors_of (fields E) input); congruence).
    apply elem_of_errors_of in Hin as (f & Hf & <- & Hv).
    unfold verdict in Hv. destruct (input !! name f) as [v|] eqn:Ei.
    + by destruct (check_value_not_Missing f v).
    + split; [|done]. exists f. split; [done|].
      apply list_elem_of_In, filter_In. split; [by apply list_elem_of_In|].
      unfold is_required. by destruct (default f).
  - intros [(f & -> & Hf) Hi].
    apply list_elem_of_In, filter_In in Hf as [Hf Hr].
    apply list_elem_of_In in Hf.
    destruct (Construct_rejects E input w f Missing Hf) as [H1 H2].
    + unfold verdict. rewrite Hi. unfold is_required in Hr.
      by destruct (default f).
    + eexists. split; [exact H1 | exact H2].
Qed.

(** ** Digit bounds as bounds on the number *)

Lemma lvalue_nonneg r : 0 <= lvalue r.
Proof. induction r as [|d r IH]; simpl; lia. Qed.

Lemma lvalue_upper r :
  Forall (fun d => (d < 10)%nat) r -> lvalue r < 10 ^ Z.of_nat (length r).
Proof.
  induction 1 as [|d r Hd _ IH]; [done|].
  cbn [lvalue length]. rewrite Nat2Z.inj_succ, Z.pow_succ_r by lia. lia.
Qed.

(** With a non-zero leading digit the number has as many digits as the
    list. *)
Lemma lvalue_lower r d :
  d <> O -> 10 ^ Z.of_nat (length r) <= lvalue (r ++ [d]).
Proof.
  intros Hd. induction r as [|x r IH].
  - simpl. lia.
  - cbn [app lvalue length]. rewrite Nat2Z.inj_succ, Z.pow_succ_r by lia. lia.
Qed.

Lemma lvalue_repeat_zero j r :
  lvalue (repeat O j ++ r) = lvalue r * 10 ^ Z.of_nat j.
Proof.
  induction j as [|j IH].
  - simpl. lia.
  - cbn [repeat app lvalue]. rewrite IH, Nat2Z.inj_succ, Z.pow_succ_r by lia. lia.
Qed.

Lemma strip_spec rds : forall e,
  exists j, rds = (repeat O j ++ (strip rds e).1)%list /\
            (strip rds e).2 = e + Z.of_nat j /\
            match (strip rds e).1 with O :: _ => False | _ => True end.
Proof.
  induction rds as [|d rds IH]; intros e.
  - exists O. simpl. split; [done|]. split; [lia | done].
  - destruct d as [|d].
    + destruct (IH (e + 1)) as (j & H1 & H2 & H3).
      exists (S j). simpl. split; [by rewrite <- H1|]. split; [lia | done].
    + exists O. simpl. split; [done|]. split; [lia | done].
Qed.

(** A number of [k] digits is below [10^t] exactly when [k <= t]. *)
Lemma digits_below (c k t : Z) :
  0 < k -> 0 <= t -> 10 ^ (k - 1) <= c < 10 ^ k -> (c < 10 ^ t <-> k <= t).
Proof.
  intros Hk Ht [Hl Hu]. split.
  - intros H. destruct (Z.le_gt_cases k t) as [|Hgt]; [done|].
    assert (10 ^ t <= 10 ^ (k - 1)) by (apply Z.pow_le_mono_r; lia). lia.
  - intros H. assert (10 ^ k <= 10 ^ t) by (apply Z.pow_le_mono_r; lia). lia.
Qed.

(** A number not divisible by 10, times [10^j], is divisible by [10^t]
    exactly when [t <= j]. *)
Lemma pow10_divides (c j t : Z) :
  0 <= j -> 0 <= t -> c mod 10 <> 0 -> ((10 ^ t | c * 10 ^ j) <-> t <= j).
Proof.
  intros Hj Ht Hc. split.
  - intros [q Hq]. destruct (Z.le_gt_cases t j) as [|Hgt]; [done|].
    exfalso. apply Hc.
    replace t with (j + 1 + (t - j - 1)) in Hq by lia.
    rewrite !Z.pow_add_r, Z.pow_1_r in Hq by lia.
    assert (0 < 10 ^ j) by (apply Z.pow_pos_nonneg; lia).
    assert (c = q * 10 ^ (t - j - 1) * 10) as -> by nia.
    apply Z.mod_mul. lia.
  - intros H. replace j with (t + (j - t)) by lia.
    rewrite Z.pow_add_r by lia. exists (c * 10 ^ (j - t)). lia.
Qed.

Lemma scaled_below (c k a b : Z) :
  0 < k -> 0 <= a -> 0 <= b -> 10 ^ (k - 1) <= c < 10 ^ k ->
  (c * 10 ^ a < 10 ^ b <-> k + a <= b).
Proof.
  intros Hk Ha Hb Hc.
  assert (0 < 10 ^ a) as Pa by (apply Z.pow_pos_nonneg; lia).
  assert (1 <= 10 ^ (k - 1)) as P1 by (apply Z.lt_pred_le, Z.pow_pos_nonneg; lia).
  destruct (Z.le_gt_cases a b) as [Hab | Hab].
  - pose proof (digits_below c k (b - a) Hk ltac:(lia) Hc) as D.
    assert (10 ^ b = 10 ^ (b - a) * 10 ^ a) as ->
      by (rewrite <- Z.pow_add_r by lia; f_equal; lia).
    split.
    + intros H. assert (c < 10 ^ (b - a)) by nia. lia.
    + intros H. assert (c < 10 ^ (b - a)) by (apply D; lia). nia.
  - assert (10 ^ b < 10 ^ a) by (apply Z.pow_lt_mono_r; lia). split; [nia | lia].
Qed.

Lemma check_decimal_counts (m p : nat) neg digits e :
  check_decimal [decimal_places p; max_digits m] (Finite neg digits e) = None <->
  (digit_counts digits e).1 <= Z.of_nat m /\
  (digit_counts digits e).2 <= Z.of_nat p /\
  (digit_counts digits e).1 - (digit_counts digits e).2 <= Z.of_nat (m - p).
Proof.
  unfold check_decimal. cbn [find_max_digits find_decimal_places].
  destruct (digit_counts digits e) as [total places]. simpl.
  destruct (Z.ltb_spec (Z.of_nat m) total); [split; [done | lia]|].
  destruct (Z.ltb_spec (Z.of_nat p) places); [split; [done | lia]|].
  destruct (Z.ltb_spec (Z.of_nat (m - p)) (total - places));
    [split; [done | lia]|].
  split; [lia | done].
Qed.

(** A decimal that the context holds exactly is left as it is, up to its
    trailing zeros. *)
Lemma normalize_in_context digits e :
  digit_tuple digits -> in_context digits e ->
  normalize digits e = reduce digits e.
Proof.
  intros [_ Hshape] (Hl & Hlo & Hhi). unfold normalize, fix_context.
  destruct Hshape as [-> | (d & ds & -> & Hd)]; [done|].
  assert (all_zero (d :: ds) = false) as ->.
  { simpl. destruct d; [done | reflexivity]. }
  unfold in_context, Etiny, Etop, Emax, Emin, prec in *.
  destruct (Z.ltb_spec (999999 - 28 + 1) (Z.of_nat (length (d :: ds)) + e - 28));
    [lia|].
  destruct (Z.ltb_spec e
              (Z.max (Z.of_nat (length (d :: ds)) + e - 28) (-999999 - 28 + 1)));
    [lia | done].
Qed.

(** The digit counts of a non-zero decimal, from the number it stands for:
    the coefficient is [c' * 10^j] with [c'] a number of [k] digits not
    divisible by 10. *)
Lemma digit_counts_nonzero d ds e :
  Forall (fun x => (x < 10)%nat) (d :: ds) -> d <> O ->
  in_context (d :: ds) e ->
  exists k j c',
    0 < k /\ 0 <= j /\ coefficient (d :: ds) = c' * 10 ^ j /\
    c' mod 10 <> 0 /\ 10 ^ (k - 1) <= c' < 10 ^ k /\
    digit_counts (d :: ds) e =
      if 0 <=? e + j then (k + (e + j), 0)
      else if k <? Z.abs (e + j) then (Z.abs (e + j), Z.abs (e + j))
      else (k, Z.abs (e + j)).
Proof.
  intros Hf Hd Hctx. unfold digit_counts.
  rewrite normalize_in_context;
    [|split; [done | right; by exists d, ds] | done].
  unfold reduce, coefficient.
  destruct (strip_spec (rev (d :: ds)) e) as (j & H1 & H2 & H3).
  destruct (strip (rev (d :: ds)) e) as [r' e']. cbn [fst snd] in H1, H2, H3. subst e'.
  assert (Forall (fun x => (x < 10)%nat) r') as Fr.
  { apply Forall_rev in Hf. rewrite H1 in Hf. by apply Forall_app in Hf as [_ ?]. }
  destruct r' as [|x r'' _] using rev_ind.
  { exfalso. rewrite app_nil_r in H1. simpl in H1.
    assert (In d (repeat O j)) as Hin
      by (rewrite <- H1; apply in_or_app; right; by left).
    apply repeat_spec in Hin. done. }
  assert (x = d) as ->.
  { simpl in H1. rewrite app_assoc in H1. by apply app_inj_tail in H1 as [_ ?]. }
  exists (Z.of_nat (length (r'' ++ [d]))), (Z.of_nat j), (lvalue (r'' ++ [d])).
  rewrite length_app. simpl length.
  split; [lia|]. split; [lia|]. split.
  { rewrite H1. apply lvalue_repeat_zero. }
  split.
  { destruct r'' as [|y r''].
    - simpl. apply Forall_inv in Fr. rewrite Z.add_0_r, Z.mod_small; lia.
    - simpl in H3. destruct y as [|y]; [done|]. cbn [app lvalue].
      apply Forall_inv in Fr.
      rewrite (Z.mul_comm 10), Z.mod_add, Z.mod_small; lia. }
  split.
  { split.
    - replace (Z.of_nat (length r'' + 1) - 1) with (Z.of_nat (length r'')) by lia.
      by apply lvalue_lower.
    - pose proof (lvalue_upper _ Fr) as U. by rewrite length_app in U. }
  destruct (r'' ++ [d])%list as [|y t] eqn:E.
  { by destruct r''. }
  rewrite <- E. rewrite length_rev, length_app. simpl length. done.
Qed.

(** A field declared with [max_digits=m] and [decimal_places=p], [p < m],
    accepts the decimal [c * 10^e] of either sign exactly when it is a whole
    multiple of [10^-p] whose magnitude is below [10^(m-p)]. *)
Lemma digit_bounds_as_numbers (m p : nat) neg digits e :
  digit_tuple digits -> in_context digits e -> (p < m)%nat ->
  check_decimal [decimal_places p; max_digits m] (Finite neg digits e) = None <->
  multiple_of_unit (coefficient digits) e p /\
  below_power (coefficient digits) e (m - p).
Proof.
  intros [Hf Hshape] Hctx Hpm. rewrite check_decimal_counts.
  unfold multiple_of_unit, below_power.
  rewrite (Nat2Z.inj_sub m p) by lia.
  destruct Hshape as [-> | (d & ds & -> & Hd)].
  - change (digit_counts [O] e) with (1, 0). change (coefficient [O]) with 0.
    simpl fst; simpl snd.
    assert (0 < 10 ^ (Z.of_nat m - Z.of_nat p + Z.max 0 (- e)))
      by (apply Z.pow_pos_nonneg; lia).
    split.
    + intros _. split; [apply Z.divide_0_r | lia].
    + intros _. lia.
  - destruct (digit_counts_nonzero d ds e Hf Hd Hctx)
      as (k & j & c' & Hk & Hj & -> & Hmod & Hb & ->).
    rewrite (pow10_divides c' j) by (try done; lia).
    replace (c' * 10 ^ j * 10 ^ Z.max 0 e) with (c' * 10 ^ (j + Z.max 0 e))
      by (rewrite Z.pow_add_r by lia; lia).
    rewrite (scaled_below c' k) by (try done; lia).
    destruct (Z.leb_spec 0 (e + j)); [simpl; lia|].
    destruct (Z.ltb_spec k (Z.abs (e + j))); simpl; lia.
Qed.

(** X12: what the bounded decimal fields of the persistent models accept,
    as numbers, among the decimals that the default context holds exactly
    (at most 28 digits, exponent within the range of the context).
    [confidence_score] and [confidence] (4 places, 5 digits) accept exactly
    the whole multiples of 0.0001 of magnitude below 10, of either sign;
    the nutrient fields and [estimated_weight] (2 places, 8 digits) the
    multiples of 0.01 below 1,000,000; [processing_time] (3 places, 8
    digits) the multiples of 0.001 below 100,000.  No field bounds the sign
    or asks for a value of at most 1.  (A decimal of more digits is counted
    after rounding to 28 digits, see [digits_past_precision].) *)
Theorem decimal_fields_accept
    (E : Model) (f : FieldDecl) (neg : bool) (digits : list nat) (e : Z) :
  E ∈ [NutritionalAnalysis; AnalysisAllergen] -> f ∈ fields E ->
  annotation f = TDecimal -> digit_tuple digits -> in_context digits e ->
  find_max_digits (kwargs f) = Some (declared_bounds (name f)).1 /\
  find_decimal_places (kwargs f) = Some (declared_bounds (name f)).2 /\
  (check_value f (VDecimal (Finite neg digits e)) = None <->
   multiple_of_unit (coefficient digits) e (declared_bounds (name f)).2 /\
   below_power (coefficient digits) e
     ((declared_bounds (name f)).1 - (declared_bounds (name f)).2)).
Proof.
  intros HE Hf Ha Ht Hctx.
  assert (kwargs f = [decimal_places (declared_bounds (name f)).2;
                      max_digits (declared_bounds (name f)).1] /\
          ((declared_bounds (name f)).2 < (declared_bounds (name f)).1)%nat)
    as (Hk & Hpm).
  { apply list_elem_of_In in HE. simpl in HE.
    destruct HE as [<- | [<- | []]];
      apply list_elem_of_In in Hf; simpl in Hf;
      repeat (destruct Hf as [<- | Hf]; [try discriminate Ha|]); try done;
      (split; [reflexivity | simpl; lia]). }
  rewrite Hk at 1 2. cbn [find_max_digits find_decimal_places].
  do 2 (split; [done|]).
  unfold check_value. rewrite Ha, Hk. by apply digit_bounds_as_numbers.
Qed.

Lemma decimal_fields_accept_witness :
  find_max_digits [decimal_places 4; max_digits 5] = Some 5%nat /\
  find_decimal_places [decimal_places 4; max_digits 5] = Some 4%nat /\
  (check_value (opt "confidence_score" TDecimal [decimal_places 4; max_digits 5])
     (VDecimal (Finite true [9; 9; 9; 9; 9]%nat (-4))) = None <->
   multiple_of_unit (coefficient [9; 9; 9; 9; 9]%nat) (-4) 4 /\
   below_power (coefficient [9; 9; 9; 9; 9]%nat) (-4) (5 - 4)).
Proof.
  apply (decimal_fields_accept NutritionalAnalysis
           (opt "confidence_score" TDecimal [decimal_places 4; max_digits 5])
           true [9; 9; 9; 9; 9]%nat (-4)).
  - apply list_elem_of_In. simpl. tauto.
  - apply list_elem_of_In. simpl. tauto.
  - reflexivity.
  - split; [repeat constructor; lia|]. right. eexists _, _. split; [reflexivity | lia].
  - unfold in_context, Etiny, Etop, Emax, Emin, prec. simpl. lia.
Defined.

(** ** Identifiers *)

(** X13: a persistent record constructed without an [id] holds [id = None]
    (the primary keys are optional and default to [None]), while both
    response shapes declare [id: int] without a default: a response cannot
    be constructed with [id] left out or [None], so only a record that the
    database has given an identifier can be shown. *)
Theorem response_needs_assigned_id
    (t : string * Model) (R : Model) (input shown : gmap string value) (w : World) :
  t ∈ tables -> R ∈ [NutritionalAnalysisResponse; FoodImageResponse] ->
  valid_input t.2 input -> input !! "id" = None ->
  (exists r, (Construct t.2 input w).1 = Ok r /\ r !! "id" = Some VNone) /\
  (shown !! "id" = None ->
     exists es, (Construct R shown w).1 = ValidationError es /\ ("id", Missing) ∈ es) /\
  (shown !! "id" = Some VNone ->
     exists es, (Construct R shown w).1 = ValidationError es /\
                ("id", NoneNotAllowed) ∈ es).
Proof.
  intros Ht HR V Hi. split; [|split].
  - apply (Construct_default t.2 input w (opt "id" TInt [primary_key]) VNone);
      try done.
    + apply list_elem_of_In in Ht. simpl in Ht.
      repeat (destruct Ht as [<- | Ht]; [by_computation|]). destruct Ht.
    + apply list_elem_of_In in Ht. simpl in Ht.
      repeat (destruct Ht as [<- | Ht]; [in_fields|]). destruct Ht.
  - intros Hs.
    destruct (Construct_rejects R shown w (req "id" TInt []) Missing) as [H1 H2].
    + apply list_elem_of_In in HR. simpl in HR.
      destruct HR as [<- | [<- | []]]; in_fields.
    + unfold verdict. change (name (req "id" TInt [])) with "id". by rewrite Hs.
    + eexists. split; [exact H1 | exact H2].
  - intros Hs.
    destruct (Construct_rejects R shown w (req "id" TInt []) NoneNotAllowed)
      as [H1 H2].
    + apply list_elem_of_In in HR. simpl in HR.
      destruct HR as [<- | [<- | []]]; in_fields.
    + unfold verdict. change (name (req "id" TInt [])) with "id". by rewrite Hs.
    + eexists. split; [exact H1 | exact H2].
Qed.

Lemma response_needs_assigned_id_witness :
  (exists r, (Construct User a_user epoch).1 = Ok r /\ r !! "id" = Some VNone) /\
  ((∅ : gmap string value) !! "id" = None ->
     exists es, (Construct FoodImageResponse ∅ epoch).1 = ValidationError es /\
                ("id", Missing) ∈ es) /\
  ((∅ : gmap string value) !! "id" = Some VNone ->
     exists es, (Construct FoodImageResponse ∅ epoch).1 = ValidationError es /\
                ("id", NoneNotAllowed) ∈ es).
Proof.
  apply (response_needs_assigned_id ("users", User) FoodImageResponse a_user ∅ epoch).
  - apply list_elem_of_In. simpl. tauto.
  - apply list_elem_of_In. simpl. tauto.
  - valid_by_computation.
  - reflexivity.
Defined.
